(** * acid key codec: a shallow embedding of [ext/keylib.c] and [ext/key.c]

    The order-preserving tuple encoding of the [acid] key layer, embedded as
    Rocq functions over lists of bytes, and the properties of it that the
    specification states.

    Conventions.
    - A byte ([uint8_t]) is a [Z] in [0, 256); a conversion to [uint8_t] is
      [u8], a [uint64_t] is a [Z] in [0, 2^64) with [u64] for wrap-around.
    - [struct writer] is the list of the bytes written so far ([s[0..pos)]).
      Its capacity is not modelled: [writer_need] reserves room and fails only
      when the allocator does, which the embedding leaves out.
    - [struct reader] is the list of the bytes in [[p, e)]. A read through a
      pointer that is not below [e], which C leaves undefined, is the failure
      [OutOfBounds].
    - A Python return value is a [result]: [Ok v], or [Raise] with the
      exception that is set.
    - [acid.h] is not part of the sources at hand: the kind tags it declares
      are a parameter ([kinds]), constrained only by what the C code needs of
      them ([kinds_ok]).
    - [datetime] elements go through [timegm], [localtime_r] and IEEE doubles
      and are left out of the element type. *)

From Stdlib Require Import ZArith List Lia Bool.
From stdpp Require Import list.
From coqutil Require Import Z.bitblast.
Import ListNotations.
Local Open Scope Z_scope.

(** ** Machine integers and bytes *)

Definition u8 (z : Z) : Z := z mod 256.
Definition u64 (z : Z) : Z := z mod 2 ^ 64.

Definition is_byte (b : Z) : bool := (0 <=? b) && (b <? 256).
Definition wf_bytes (s : list Z) : Prop := Forall (fun b => 0 <= b < 256) s.

(** ** Outcomes *)

Inductive failure : Set :=
| PyValueError      (* truncated input, bad kind byte *)
| PyTypeError       (* unsupported element type, incomparable operand *)
| PyIndexError      (* Key index out of range *)
| PyOverflowError   (* a long that does not fit in 64 bits *)
| PySystemError     (* NULL returned with no exception set *)
| PyUnicodeError    (* the UTF-8 codec of the interpreter failed *)
| NotModelled       (* a datetime: outside the embedding *)
| OutOfBounds       (* read outside the buffer *)
| OutOfFuel.        (* loop bound of the embedding exhausted; never reached *)

Inductive result (A : Type) : Type :=
| Ok (a : A)
| Raise (e : failure).
Arguments Ok {A} a.
Arguments Raise {A} e.

Definition bind {A B} (m : result A) (k : A -> result B) : result B :=
  match m with
  | Ok a => k a
  | Raise e => Raise e
  end.

Notation "'let*' x ':=' m 'in' k" := (bind m (fun x => k))
  (at level 10, x pattern, m at level 100, k at level 200).

(** ** Byte buffers *)

Definition writer := list Z.
Definition reader := list Z.

(** [reader_getc]: the next byte, or nothing when [p == e]. *)
Definition reader_getc (rdr : reader) : option (Z * reader) :=
  match rdr with
  | [] => None
  | ch :: rdr' => Some (ch, rdr')
  end.

(** [reader_ensure]: are there [n] bytes left? *)
Definition reader_ensure (rdr : reader) (n : Z) : bool :=
  n <=? Z.of_nat (length rdr).

(** [reader_getchar]: the next byte, unconditionally. *)
Definition reader_getchar (rdr : reader) : result (Z * reader) :=
  match rdr with
  | [] => Raise OutOfBounds
  | ch :: rdr' => Ok (ch, rdr')
  end.

(** [writer_ptr]: the write position, as an offset into the buffer. *)
Definition writer_ptr (wtr : writer) : nat := length wtr.

(** [writer_putchar]: the parameter is a [uint8_t]. *)
Definition writer_putchar (wtr : writer) (ch : Z) : writer := wtr ++ [u8 ch].

Definition writer_putc (wtr : writer) (o : Z) : writer := writer_putchar wtr o.

Definition writer_puts (wtr : writer) (s : list Z) : writer := wtr ++ s.

(** ** [memcmp] and the comparison of two byte strings

    [memcmp a b n] is defined when both strings have [n] bytes; its result is
    normalised to a sign. [bytes_compare] is the Key/Key branch of
    [key_richcompare]: [memcmp] over the shorter length, then the lengths. *)

Fixpoint memcmp (a b : list Z) (n : nat) : Z :=
  match n, a, b with
  | S n', x :: a', y :: b' =>
      if x <? y then -1 else if y <? x then 1 else memcmp a' b' n'
  | _, _, _ => 0
  end.

Definition bytes_compare (a b : list Z) : Z :=
  let s1 := length a in
  let s2 := length b in
  let minsize := if (s1 <? s2)%nat then s1 else s2 in
  let cmpres := memcmp a b minsize in
  if cmpres =? 0 then
    if (s1 <? s2)%nat then -1 else if (s2 <? s1)%nat then 1 else 0
  else cmpres.

(** ** Unsigned varint: [write_int] and [read_plain_int] *)

Definition write_int (wtr : writer) (v : Z) (kind : Z) (xor : Z) : writer :=
  let wtr := if kind =? 0 then wtr else writer_putc wtr kind in
  if v <=? 240 then
    writer_putc wtr (Z.lxor xor v)
  else if v <=? 2287 then
    let v := v - 240 in
    let wtr := writer_putchar wtr (Z.lxor xor (241 + u8 (Z.shiftr v 8))) in
    writer_putchar wtr (Z.lxor xor (u8 (Z.land v 255)))
  else if v <=? 67823 then
    let v := v - 2288 in
    let wtr := writer_putchar wtr (Z.lxor xor 249) in
    let wtr := writer_putchar wtr (Z.lxor xor (u8 (Z.shiftr v 8))) in
    writer_putchar wtr (Z.lxor xor (u8 (Z.land v 255)))
  else
    (* Progressively increment type byte from 24bit case. *)
    let typeptr := writer_ptr wtr in
    let type := 250 in
    let wtr := writer_putchar wtr 0 in
    let '(wtr, type) :=
      if v >? 72057594037927935 then
        (writer_putchar wtr (Z.lxor xor (u8 (Z.shiftr v 56))), type + 1)
      else (wtr, type) in
    let '(wtr, type) :=
      if v >? 281474976710655 then
        (writer_putchar wtr (Z.lxor xor (u8 (Z.shiftr v 48))), type + 1)
      else (wtr, type) in
    let '(wtr, type) :=
      if v >? 1099511627775 then
        (writer_putchar wtr (Z.lxor xor (u8 (Z.shiftr v 40))), type + 1)
      else (wtr, type) in
    let '(wtr, type) :=
      if v >? 4294967295 then
        (writer_putchar wtr (Z.lxor xor (u8 (Z.shiftr v 32))), type + 1)
      else (wtr, type) in
    let '(wtr, type) :=
      if v >? 16777215 then
        (writer_putchar wtr (Z.lxor xor (u8 (Z.shiftr v 24))), type + 1)
      else (wtr, type) in
    let wtr := writer_putchar wtr (Z.lxor xor (u8 (Z.shiftr v 16))) in
    let wtr := writer_putchar wtr (Z.lxor xor (u8 (Z.shiftr v 8))) in
    let wtr := writer_putchar wtr (Z.lxor xor (u8 v)) in
    <[typeptr := u8 (Z.lxor xor type)]> wtr.

(** [py_pack_int]: the prefix, then the bare varint. *)
Definition py_pack_int (prefix : list Z) (v : Z) : list Z :=
  write_int (writer_puts [] prefix) v 0 0.

(** Read [n] bytes big-endian into [v], each XORed with [xor], the top one
    shifted by [8 * (n - 1)]: the chain of [v |= ... << k] of the last branch
    of [read_plain_int]. *)
Definition read_shifted (rdr : reader) (xor : Z) (v : Z) (k : Z)
  : result (Z * reader) :=
  let* (ch, rdr) := reader_getchar rdr in
  Ok (Z.lor v (Z.shiftl (Z.lxor xor ch) k), rdr).

Definition read_plain_int (rdr : reader) (xor : Z) : result (Z * reader) :=
  match reader_getc rdr with
  | None => Raise PySystemError
  | Some (ch, rdr) =>
      let ch := Z.lxor ch xor in
      if ch <=? 240 then Ok (ch, rdr)
      else if ch <=? 248 then
        if reader_ensure rdr 1 then
          let v := 240 in
          let v := v + 256 * (ch - 241) in
          let* (b, rdr) := reader_getchar rdr in
          Ok (v + Z.lxor xor b, rdr)
        else Raise PyValueError
      else if ch =? 249 then
        if reader_ensure rdr 2 then
          let v := 2288 in
          let* (b, rdr) := reader_getchar rdr in
          let v := v + 256 * Z.lxor xor b in
          let* (b, rdr) := reader_getchar rdr in
          Ok (v + Z.lxor xor b, rdr)
        else Raise PyValueError
      else if reader_ensure rdr (8 - (255 - ch)) then
        let v := 0 in
        let* (v, rdr) :=
          if ch >=? 255 then read_shifted rdr xor v 56 else Ok (v, rdr) in
        let* (v, rdr) :=
          if ch >=? 254 then read_shifted rdr xor v 48 else Ok (v, rdr) in
        let* (v, rdr) :=
          if ch >=? 253 then read_shifted rdr xor v 40 else Ok (v, rdr) in
        let* (v, rdr) :=
          if ch >=? 252 then read_shifted rdr xor v 32 else Ok (v, rdr) in
        let* (v, rdr) :=
          if ch >=? 251 then read_shifted rdr xor v 24 else Ok (v, rdr) in
        let* (v, rdr) := read_shifted rdr xor v 16 in
        let* (v, rdr) := read_shifted rdr xor v 8 in
        let* (v, rdr) := read_shifted rdr xor v 0 in
        Ok (v, rdr)
      else Raise PyValueError
  end.

(** ** Byte strings: [write_str] and [read_str] *)

(** The loop of [write_str] over the remaining input, with its two variables
    [shift] and [trailer] (a [uint8_t]), and the closing [if(shift > 1)]. *)
Fixpoint write_str_loop (wtr : writer) (p : list Z) (shift : Z) (trailer : Z)
  : writer :=
  match p with
  | [] =>
      if shift >? 1 then writer_putchar wtr (Z.lor 128 trailer) else wtr
  | o :: p' =>
      let wtr :=
        writer_putchar wtr (Z.lor (Z.lor 128 trailer) (Z.shiftr o shift)) in
      if shift <? 7 then
        write_str_loop wtr p' (shift + 1) (u8 (Z.shiftl o (7 - shift)))
      else
        let wtr := writer_putchar wtr (Z.lor 128 o) in
        write_str_loop wtr p' 1 0
  end.

Definition write_str (wtr : writer) (p : list Z) (kind : Z) : writer :=
  let wtr := if kind =? 0 then wtr else writer_putchar wtr kind in
  write_str_loop wtr p 1 0.

(** The loop of [read_str]: [lb] is the last byte read, [wtr] the output.
    [rdr->p--] after a [reader_getc] leaves the byte in the reader. *)
Fixpoint read_str_loop (rdr : reader) (lb : Z) (shift : Z) (wtr : writer)
  : writer * reader :=
  match rdr with
  | [] => (wtr, [])
  | cb :: rdr' =>
      if cb <? 128 then (wtr, rdr)
      else
        let ch := u8 (Z.shiftl lb shift) in
        let ch := Z.lor ch (Z.shiftr (Z.land cb 127) (7 - shift)) in
        let wtr := writer_putc wtr ch in
        if shift <? 7 then read_str_loop rdr' cb (shift + 1) wtr
        else
          match rdr' with
          | [] => (wtr, [])
          | lb' :: rdr'' =>
              if lb' <? 128 then (wtr, rdr')
              else read_str_loop rdr'' lb' 1 wtr
          end
  end.

Definition read_str (rdr : reader) : result (list Z * reader) :=
  match rdr with
  | [] => Ok ([], [])                       (* 0-byte string at end of key *)
  | lb :: rdr' =>
      if lb <? 128 then Ok ([], rdr)
      else Ok (read_str_loop rdr' lb 1 [])
  end.

(** ** Element kinds and host types

    The kind tags of [enum ElementKind] come from [acid.h]. The C code
    uses them as [uint8_t] values and as the labels of one [switch]
    ([skip_element] names all ten), takes a kind of [0] to mean no kind byte
    ([write_int], [write_str]), and ends a string at the first byte below
    [0x80] ([read_str]): [kinds_ok] says the tags are pairwise distinct and
    lie in [1, 127]. *)

Class Kinds : Set := {
  KIND_NULL : Z;
  KIND_NEG_INTEGER : Z;
  KIND_INTEGER : Z;
  KIND_BOOL : Z;
  KIND_BLOB : Z;
  KIND_TEXT : Z;
  KIND_UUID : Z;
  KIND_NEG_TIME : Z;
  KIND_TIME : Z;
  KIND_SEP : Z
}.

Definition all_kinds `{Kinds} : list Z :=
  [KIND_NULL; KIND_NEG_INTEGER; KIND_INTEGER; KIND_BOOL; KIND_BLOB;
   KIND_TEXT; KIND_UUID; KIND_NEG_TIME; KIND_TIME; KIND_SEP].

Fixpoint distinct (l : list Z) : bool :=
  match l with
  | [] => true
  | x :: l' => forallb (fun y => negb (x =? y)) l' && distinct l'
  end.

Definition kinds_ok `{Kinds} : bool :=
  forallb (fun k => (1 <=? k) && (k <? 128)) all_kinds && distinct all_kinds.

(** The unicode type of the interpreter and its UTF-8 codec
    ([PyUnicode_EncodeUTF8], [PyUnicode_DecodeUTF8], both ["strict"]). *)
Class PyUnicode : Type := {
  unicode : Type;
  PyUnicode_EncodeUTF8 : unicode -> option (list Z);
  PyUnicode_DecodeUTF8 : list Z -> option unicode
}.

(** The codec decodes what it encodes, and encodes to bytes. *)
Definition utf8_ok `{PyUnicode} : Prop :=
  forall u s, PyUnicode_EncodeUTF8 u = Some s ->
    wf_bytes s /\ PyUnicode_DecodeUTF8 s = Some u.

(** ** Elements

    The Python objects [write_element] tells apart. An [int] and a [long] of
    the same value are equal in Python and take the same path through
    [write_int]: [EInt] stands for both. A [uuid.UUID] is given by the string
    its [get_bytes] returns. [EOther] is an object of a type that
    [write_element] rejects. A [datetime.datetime], which it accepts, is not
    part of the embedding. *)
Inductive element `{PyUnicode} : Type :=
| ENone
| EInt (v : Z)
| EStr (s : list Z)
| EUnicode (u : unicode)
| EBool (b : bool)
| EUuid (ss : list Z)
| EOther.

(** What the types of the interpreter guarantee of an element: a [str] is a
    string of bytes, and [get_bytes] of a UUID returns 16 of them. *)
Definition wf_element `{PyUnicode} (e : element) : Prop :=
  match e with
  | EStr s => wf_bytes s
  | EUuid ss => wf_bytes ss /\ length ss = 16%nat
  | _ => True
  end.

(** The elements [write_element] accepts, a [datetime] apart: [None], an
    [int] or a [long] in the range of [int64_t], a [str], a [unicode] that
    the UTF-8 codec encodes, a [bool], a UUID. *)
Definition encodable `{PyUnicode} (e : element) : Prop :=
  match e with
  | ENone => True
  | EInt v => - 2 ^ 63 <= v < 2 ^ 63
  | EStr s => wf_bytes s
  | EUnicode u =>
      match PyUnicode_EncodeUTF8 u with
      | Some _ => True
      | None => False
      end
  | EBool _ => True
  | EUuid ss => wf_bytes ss /\ length ss = 16%nat
  | EOther => False
  end.

(** A Key object: the bytes [p[0 .. Py_SIZE)]. The storage flags and the
    memoised hash play no part in what follows. *)
Record Key : Set := mkKey { key_bytes : list Z }.

Section Codec.
Context `{K : Kinds} `{U : PyUnicode}.

(** [PyLong_AsLongLong] fails outside the range of [int64_t]. *)
Definition fits_int64 (v : Z) : bool :=
  (- 2 ^ 63 <=? v) && (v <? 2 ^ 63).

Definition write_element (wtr : writer) (arg : element) : result writer :=
  match arg with
  | ENone => Ok (writer_putc wtr KIND_NULL)
  | EInt v =>
      if fits_int64 v then
        if v <? 0 then Ok (write_int wtr (u64 (- v)) KIND_NEG_INTEGER 255)
        else Ok (write_int wtr (u64 v) KIND_INTEGER 0)
      else Raise PyOverflowError
  | EStr s => Ok (write_str wtr s KIND_BLOB)
  | EUnicode u =>
      match PyUnicode_EncodeUTF8 u with
      | Some utf8 => Ok (write_str wtr utf8 KIND_TEXT)
      | None => Raise PyUnicodeError
      end
  | EBool b =>
      let wtr := writer_putc wtr KIND_BOOL in
      Ok (writer_putc wtr (if b then 1 else 0))
  | EUuid ss =>
      let wtr := writer_putc wtr KIND_UUID in
      Ok (writer_puts wtr ss)
  | EOther => Raise PyTypeError
  end.

Fixpoint write_tuple (wtr : writer) (tup : list element) : result writer :=
  match tup with
  | [] => Ok wtr
  | arg :: tup' =>
      let* wtr := write_element wtr arg in
      write_tuple wtr tup'
  end.

(** *** [py_packs] *)

(** What [py_packs] distinguishes by type, in a list or alone. *)
Inductive item : Type :=
| ITuple (tup : list element)
| IKey (k : Key)
| IElement (e : element).

Inductive packs_arg : Type :=
| PSingle (i : item)
| PList (tups : list item).

Definition write_item (wtr : writer) (elem : item) : result writer :=
  match elem with
  | ITuple tup => write_tuple wtr tup
  | IKey k => Ok (writer_puts wtr (key_bytes k))
  | IElement e => write_element wtr e
  end.

Fixpoint packs_loop (wtr : writer) (i : nat) (tups : list item)
  : result writer :=
  match tups with
  | [] => Ok wtr
  | elem :: tups' =>
      let wtr := if (i =? 0)%nat then wtr else writer_putc wtr KIND_SEP in
      let* wtr := write_item wtr elem in
      packs_loop wtr (S i) tups'
  end.

Definition py_packs (prefix : list Z) (tups : packs_arg) : result (list Z) :=
  let wtr := writer_puts [] prefix in
  match tups with
  | PSingle i => write_item wtr i
  | PList l => packs_loop wtr 0 l
  end.

(** *** Decoding *)

Definition read_int (rdr : reader) (negate : bool) (xor : Z)
  : result (element * reader) :=
  let* (u64, rdr) := read_plain_int rdr xor in
  Ok (EInt (if negate then - u64 else u64), rdr).

Definition read_uuid (rdr : reader) : result (element * reader) :=
  if reader_ensure rdr 16 then Ok (EUuid (take 16 rdr), drop 16 rdr)
  else Raise PyValueError.

Definition read_element (rdr : reader) : result (element * reader) :=
  let* (ch, rdr) := reader_getchar rdr in
  if ch =? KIND_NULL then Ok (ENone, rdr)
  else if ch =? KIND_INTEGER then read_int rdr false 0
  else if ch =? KIND_NEG_INTEGER then read_int rdr true 255
  else if ch =? KIND_BOOL then
    let* (u64, rdr) := read_plain_int rdr 0 in
    Ok (EBool (negb (u64 =? 0)), rdr)
  else if ch =? KIND_BLOB then
    let* (s, rdr) := read_str rdr in
    Ok (EStr s, rdr)
  else if ch =? KIND_TEXT then
    let* (tmp, rdr) := read_str rdr in
    match PyUnicode_DecodeUTF8 tmp with
    | Some u => Ok (EUnicode u, rdr)
    | None => Raise PyUnicodeError
    end
  else if (ch =? KIND_NEG_TIME) || (ch =? KIND_TIME) then
    Raise NotModelled
  else if ch =? KIND_UUID then read_uuid rdr
  else Raise PyValueError.

(** [unpack]: elements until [KIND_SEP] or the end. Each round reads at
    least one byte, so [length rdr] rounds are enough. *)
Fixpoint unpack_loop (fuel : nat) (rdr : reader) (tup : list element)
  : result (list element * reader) :=
  match rdr with
  | [] => Ok (tup, rdr)
  | ch :: rdr' =>
      if ch =? KIND_SEP then Ok (tup, rdr')
      else
        match fuel with
        | O => Raise OutOfFuel
        | S fuel' =>
            let* (arg, rdr) := read_element rdr in
            unpack_loop fuel' rdr (tup ++ [arg])
        end
  end.

Definition unpack (rdr : reader) : result (list element * reader) :=
  unpack_loop (length rdr) rdr [].

(** [rdr->p == rdr->e] *)
Definition reader_at_end (rdr : reader) : bool :=
  match rdr with
  | [] => true
  | _ :: _ => false
  end.

(** [rdr->p += n]: a pointer past [e] is outside the buffer. *)
Definition reader_advance (rdr : reader) (n : Z) : result reader :=
  if n <=? Z.of_nat (length rdr) then Ok (drop (Z.to_nat n) rdr)
  else Raise OutOfBounds.

(** [for(; (rdr->p < rdr->e) && (0x80 & *rdr->p); rdr->p++);] *)
Fixpoint skip_high (rdr : reader) : reader :=
  match rdr with
  | [] => []
  | b :: rdr' => if Z.land 128 b =? 0 then rdr else skip_high rdr'
  end.

Definition skip_element (rdr : reader) (eof : bool) : result (reader * bool) :=
  let finish (rdr : reader) (eof : bool) : result (reader * bool) :=
    Ok (rdr, eof || reader_at_end rdr) in
  let skip_int (rdr : reader) (xor : Z) : result (reader * bool) :=
    let* (b, rdr) := reader_getchar rdr in
    let ch := Z.lxor xor b in
    if (ch <=? 248) && (ch >? 240) then
      let* rdr := reader_advance rdr 1 in finish rdr eof
    else if ch >=? 249 then
      let* rdr := reader_advance rdr (8 - (255 - ch)) in finish rdr eof
    else finish rdr eof in
  let* (ch, rdr) := reader_getchar rdr in
  if (ch =? KIND_BOOL) || (ch =? KIND_NULL) then finish rdr eof
  else if (ch =? KIND_NEG_TIME) || (ch =? KIND_NEG_INTEGER) then skip_int rdr 255
  else if (ch =? KIND_TIME) || (ch =? KIND_INTEGER) then skip_int rdr 0
  else if (ch =? KIND_TEXT) || (ch =? KIND_BLOB) then finish (skip_high rdr) eof
  else if ch =? KIND_UUID then
    let* rdr := reader_advance rdr 16 in finish rdr eof
  else if ch =? KIND_SEP then finish rdr true
  else Raise PyValueError.

(** [py_unpack], [py_unpacks]: [Ok None] is Python's [None]. *)
Definition py_unpack (prefix s : list Z) : result (option (list element)) :=
  if (length s <? length prefix)%nat
     || negb (memcmp prefix s (length prefix) =? 0)
  then Ok None
  else
    let rdr := drop (length prefix) s in
    let* (tup, _) := unpack rdr in
    Ok (Some tup).

Fixpoint unpacks_loop (fuel : nat) (rdr : reader) (tups : list (list element))
  : result (list (list element)) :=
  match rdr with
  | [] => Ok tups
  | _ :: _ =>
      match fuel with
      | O => Raise OutOfFuel
      | S fuel' =>
          let* (tup, rdr) := unpack rdr in
          unpacks_loop fuel' rdr (tups ++ [tup])
      end
  end.

Definition py_unpacks (prefix s : list Z)
  : result (option (list (list element))) :=
  if (length s <? length prefix)%nat
     || negb (memcmp prefix s (length prefix) =? 0)
  then Ok None
  else
    let rdr := drop (length prefix) s in
    let* tups := unpacks_loop (length rdr) rdr [] in
    Ok (Some tups).

(** ** The Key type ([key.c]) *)

(** [key_new] over the tuple of its arguments. *)
Definition key_new (args : list element) : result Key :=
  let* wtr := write_tuple [] args in
  Ok (mkKey wtr).

Definition key_from_raw (prefix raw : list Z) : result (option Key) :=
  if (length raw <? length prefix)%nat
     || negb (memcmp prefix raw (length prefix) =? 0)
  then Ok None
  else Ok (Some (mkKey (drop (length prefix) raw))).

(** [key_length]: count the calls of [skip_element] until [eof]. A call that
    succeeds moves the reader on, so [length] of the bytes bounds the loop. *)
Fixpoint key_length_loop (fuel : nat) (rdr : reader) (eof : bool) (len : Z)
  : result Z :=
  if eof then Ok len
  else
    match fuel with
    | O => Raise OutOfFuel
    | S fuel' =>
        let* (rdr, eof) := skip_element rdr eof in
        key_length_loop fuel' rdr eof (len + 1)
    end.

Definition key_length (self : Key) : result Z :=
  let rdr := key_bytes self in
  let eof := reader_at_end rdr in
  key_length_loop (length rdr) rdr eof 0.

(** [while(i-- && !eof)] of [key_item]. *)
Fixpoint key_item_loop (fuel : nat) (i : Z) (rdr : reader) (eof : bool)
  : result (reader * bool) :=
  if negb (i =? 0) && negb eof then
    match fuel with
    | O => Raise OutOfFuel
    | S fuel' =>
        let* (rdr, eof) := skip_element rdr eof in
        key_item_loop fuel' (i - 1) rdr eof
    end
  else Ok (rdr, eof).

(** [key_item]. For a negative [i] the result of [key_length] is used as it
    is returned, [-1] when it failed. *)
Definition key_item (self : Key) (i : Z) : result element :=
  let rdr := key_bytes self in
  let eof := reader_at_end rdr in
  let '(i, eof) :=
    if i <? 0 then
      let len := match key_length self with Ok n => n | Raise _ => -1 end in
      let i := len - i in
      (i, eof || (i <? 0))
    else (i, eof) in
  let* (rdr, eof) := key_item_loop (length rdr) i rdr eof in
  if eof then Raise PyIndexError
  else
    let* (elem, _) := read_element rdr in
    Ok elem.

(** The iterator: the Key and the offset of the next element. *)
Record KeyIter : Set := mkKeyIter { iter_key : Key; iter_pos : nat }.

Definition key_iter (self : Key) : KeyIter := mkKeyIter self 0.

(** [keyiter_next]: [None] ends the iteration. It is the [tp_iternext] of
    the iterator, for which a [NULL] with no exception set is the end of the
    iteration: that is what [read_element] returns when [read_plain_int]
    finds no byte after a kind byte ([PySystemError] in [read_element], which
    has no other source of it), the reader being then at the end of the Key.
    After a failure with an exception the iterator is not used again; its
    position is left as it was. *)
Definition keyiter_next (self : KeyIter) : option (result element) * KeyIter :=
  let size := length (key_bytes (iter_key self)) in
  if (size <=? iter_pos self)%nat then (None, self)
  else
    let rdr := drop (iter_pos self) (key_bytes (iter_key self)) in
    match read_element rdr with
    | Ok (elem, rdr) =>
        (Some (Ok elem), mkKeyIter (iter_key self) (size - length rdr))
    | Raise PySystemError => (None, mkKeyIter (iter_key self) size)
    | Raise e => (Some (Raise e), self)
    end.

(** Iterating to the end, as [tuple(key)] does. *)
Fixpoint iterate (fuel : nat) (it : KeyIter) (acc : list element)
  : result (list element) :=
  match keyiter_next it with
  | (None, _) => Ok acc
  | (Some (Raise e), _) => Raise e
  | (Some (Ok elem), it') =>
      match fuel with
      | O => Raise OutOfFuel
      | S fuel' => iterate fuel' it' (acc ++ [elem])
      end
  end.

Definition key_elements (self : Key) : result (list element) :=
  iterate (length (key_bytes self)) (key_iter self) [].

(** *** [key_richcompare] *)

Inductive cmpop : Set := Py_LT | Py_LE | Py_EQ | Py_NE | Py_GT | Py_GE.

Inductive pyobject : Type :=
| OKey (k : Key)
| OTuple (t : list element)
| OOther.

(** The loop over the tuple [other] from index [ti] on, [kp] being the
    [remain] bytes of the Key not yet compared, and what follows the loop. *)
Fixpoint compare_tuple (kp : list Z) (other : list element) : result Z :=
  match kp, other with
  | _ :: _, arg :: other' =>
      let* wtr := write_element [] arg in
      let remain := length kp in
      let minsz := if (remain <? length wtr)%nat then remain else length wtr in
      let cmpres := memcmp kp wtr minsz in
      if cmpres =? 0 then compare_tuple (drop minsz kp) other'
      else Ok cmpres
  | _ :: _, [] => Ok 1
  | [], _ :: _ => Ok (-1)
  | [], [] => Ok 0
  end.

Definition key_compare (self : Key) (other : pyobject) : option (result Z) :=
  match other with
  | OKey k => Some (Ok (bytes_compare (key_bytes self) (key_bytes k)))
  | OTuple t => Some (compare_tuple (key_bytes self) t)
  | OOther => None
  end.

Definition key_richcompare (self : Key) (other : pyobject) (op : cmpop)
  : result bool :=
  match key_compare self other with
  | None =>
      match op with
      | Py_EQ => Ok false
      | Py_NE => Ok true
      | _ => Raise PyTypeError
      end
  | Some r =>
      let* cmpres := r in
      Ok match op with
         | Py_LT => cmpres <? 0
         | Py_LE => cmpres <=? 0
         | Py_EQ => cmpres =? 0
         | Py_NE => negb (cmpres =? 0)
         | Py_GT => cmpres >? 0
         | Py_GE => cmpres >=? 0
         end
  end.

End Codec.

(** ** One assignment of the kind tags, and an ASCII-only codec

    Used where a statement is evaluated on concrete bytes; [KIND_INTEGER] is
    the [0x15] of the specification's first scenario. The theorems below hold
    for every assignment satisfying [kinds_ok]. *)

Module Sample.

#[export] Instance kinds : Kinds := {|
  KIND_NULL := 15;
  KIND_NEG_INTEGER := 20;
  KIND_INTEGER := 21;
  KIND_BOOL := 30;
  KIND_BLOB := 40;
  KIND_TEXT := 50;
  KIND_UUID := 90;
  KIND_NEG_TIME := 91;
  KIND_TIME := 92;
  KIND_SEP := 102
|}.

(** Unicode strings as lists of code points below 128, which UTF-8 encodes
    as themselves. *)
Definition ascii_encode (u : list Z) : option (list Z) :=
  if forallb (fun c => (0 <=? c) && (c <? 128)) u then Some u else None.

Definition ascii_decode (s : list Z) : option (list Z) :=
  if forallb (fun c => (0 <=? c) && (c <? 128)) s then Some s else None.

#[export] Instance ascii : PyUnicode := {|
  unicode := list Z;
  PyUnicode_EncodeUTF8 := ascii_encode;
  PyUnicode_DecodeUTF8 := ascii_decode
|}.

End Sample.

(** ** The rest of [key.c] and [keylib.c]

    [int] and [long] values are two's complement: [to_int] and [to_long]
    are the conversions of C from a wider or unsigned value, and the
    arithmetic of [key_hash] on [long] wraps the same way. *)

Definition to_int (z : Z) : Z := (z + 2 ^ 31) mod 2 ^ 32 - 2 ^ 31.
Definition to_long (z : Z) : Z := (z + 2 ^ 63) mod 2 ^ 64 - 2 ^ 63.

(** [key_to_raw]: the prefix, then the bytes of the Key. *)
Definition key_to_raw (self : Key) (prefix : list Z) : list Z :=
  prefix ++ key_bytes self.

(** [key_hash]. The loop over the bytes: *)
Fixpoint key_hash_loop (p : list Z) (h : Z) : Z :=
  match p with
  | [] => h
  | b :: p' => key_hash_loop p' (to_long (Z.lxor (to_long (1000003 * h)) b))
  end.

(** [key_hash], given the field [self->hash]: the value returned and the
    field afterwards. *)
Definition key_hash (hash : Z) (self : Key) : Z * Z :=
  let h := hash in
  if h =? -1 then
    let h := key_hash_loop (key_bytes self) 0 in
    let h := if h =? -1 then to_long (h - 1) else h in
    (h, h)
  else (h, hash).

(** [PyList_SET_ITEM]: a store into the items of a list, which must have the
    slot. An item not yet stored is [None]. *)
Definition PyList_SET_ITEM (out : list (option Z)) (i : Z) (v : Z)
  : result (list (option Z)) :=
  if (0 <=? i) && (i <? Z.of_nat (length out)) then
    Ok (<[Z.to_nat i := Some v]> out)
  else Raise OutOfBounds.

(** The loop of [py_decode_offsets]: [todo] is [count - i]. *)
Fixpoint decode_offsets_loop (todo : nat) (i : Z) (rdr : reader) (pos : Z)
    (out : list (option Z)) : result (list (option Z) * reader) :=
  match todo with
  | O => Ok (out, rdr)
  | S todo' =>
      let* (offset, rdr) := read_plain_int rdr 0 in
      let pos := u64 (pos + offset) in
      let* out := PyList_SET_ITEM out (1 + i) (to_long pos) in
      decode_offsets_loop todo' (i + 1) rdr pos out
  end.

(** [py_decode_offsets]: the list of offsets and the number of bytes read.
    [PyList_New] fails on a negative size. *)
Definition py_decode_offsets (s : list Z) : result (list (option Z) * Z) :=
  let rdr := s in
  let* (count, rdr) := read_plain_int rdr 0 in
  let pos := 0 in
  let size := to_int (1 + to_int count) in
  if size <? 0 then Raise PySystemError
  else
    let out := replicate (Z.to_nat size) None in
    let* out := PyList_SET_ITEM out 0 0 in
    let* (out, rdr) := decode_offsets_loop (Z.to_nat count) 0 rdr pos out in
    Ok (out, Z.of_nat (length s) - Z.of_nat (length rdr)).

(** Indexing, [k[i]]. [key_item] is the [sq_item] of the type and the
    interpreter reaches it through [PySequence_GetItem], which adds the
    result of [sq_length], here [key_length], to a negative index before the
    call, and fails as [sq_length] does when that fails. *)
Definition PySequence_GetItem `{K : Kinds} `{U : PyUnicode}
    (self : Key) (i : Z) : result element :=
  if i <? 0 then
    let* l := key_length self in
    key_item self (i + l)
  else key_item self i.

Section Codec2.
Context `{K : Kinds} `{U : PyUnicode}.


End Codec2.

(** * Definitions used in the proofs

    What the code writes, described a second time in a form that is easier
    to reason about; the lemmas below relate each description to the code. *)

(** *** Big-endian payloads *)

Fixpoint be_bytes (n : nat) (v : Z) : list Z :=
  match n with
  | O => []
  | S n' => u8 (Z.shiftr v (8 * Z.of_nat n')) :: be_bytes n' v
  end.

(** *** What [write_int] writes *)

(** The encoding with no kind byte and no XOR, range by range. *)
Definition varint_bytes (v : Z) : list Z :=
  if v <=? 240 then [v]
  else if v <=? 2287 then [241 + (v - 240) / 256; (v - 240) mod 256]
  else if v <=? 67823 then [249; (v - 2288) / 256; (v - 2288) mod 256]
  else if v <=? 16777215 then 250 :: be_bytes 3 v
  else if v <=? 4294967295 then 251 :: be_bytes 4 v
  else if v <=? 1099511627775 then 252 :: be_bytes 5 v
  else if v <=? 281474976710655 then 253 :: be_bytes 6 v
  else if v <=? 72057594037927935 then 254 :: be_bytes 7 v
  else 255 :: be_bytes 8 v.

Definition kind_bytes (kind : Z) : list Z :=
  if kind =? 0 then [] else [u8 kind].

(** [hi v k]: [v] with its low [k] bits cleared. The chain of [v |= b << k]
    rebuilds [v] from the top byte down. *)
Definition hi (v k : Z) : Z := Z.shiftl (Z.shiftr v k) k.

(** *** Facts about single bytes, checked over all 256 values *)

Definition all_bytes : list Z := map Z.of_nat (seq 0 256).
Definition all_shifts : list Z := [1; 2; 3; 4; 5; 6; 7].

Definition forall_byte (f : Z -> bool) : bool := forallb f all_bytes.
Definition forall_shift (f : Z -> bool) : bool := forallb f all_shifts.

(** The byte written for input byte [o] and the carry kept from it. *)
Definition out_byte (trailer o shift : Z) : Z :=
  u8 (Z.lor (Z.lor 128 trailer) (Z.shiftr o shift)).
Definition carry (o shift : Z) : Z := u8 (Z.shiftl o (7 - shift)).

(** [trailer] is a carry that [shift] can take: its low [8 - shift] bits are
    clear. *)
Definition carry_ok (shift trailer : Z) : bool :=
  is_byte trailer && (Z.land trailer (Z.ones (8 - shift)) =? 0).

(** [lb], read with [shift] still to apply, holds the high bits of [o]. *)
Definition holds_high (lb shift o : Z) : Prop :=
  u8 (Z.shiftl lb shift) = Z.shiftl (Z.shiftr o shift) shift.

(** The byte [read_str] rebuilds from the high bits of [o] and the byte [cb]. *)
Definition rebuilt (o shift cb : Z) : Z :=
  u8 (Z.lor (Z.shiftl (Z.shiftr o shift) shift)
            (Z.shiftr (Z.land cb 127) (7 - shift))).

(** The rest of the input after a string: nothing, or a byte below [0x80]. *)
Definition ends_string (rest : list Z) : Prop :=
  match rest with
  | [] => True
  | c :: _ => 0 <= c < 128
  end.

Section CodecAux.
Context `{K : Kinds} `{U : PyUnicode}.

(** The bytes of one element: a tag, then the payload. *)
Definition payload (e : element) : option (Z * list Z) :=
  match e with
  | ENone => Some (KIND_NULL, [])
  | EInt v =>
      if fits_int64 v then
        if v <? 0 then Some (KIND_NEG_INTEGER, map (Z.lxor 255) (varint_bytes (- v)))
        else Some (KIND_INTEGER, map (Z.lxor 0) (varint_bytes v))
      else None
  | EStr s => Some (KIND_BLOB, write_str_loop [] s 1 0)
  | EUnicode u =>
      match PyUnicode_EncodeUTF8 u with
      | Some utf8 => Some (KIND_TEXT, write_str_loop [] utf8 1 0)
      | None => None
      end
  | EBool b => Some (KIND_BOOL, [if b then 1 else 0])
  | EUuid ss => Some (KIND_UUID, ss)
  | EOther => None
  end.

(** The bytes of a tuple: those of its elements, one after the other. *)
Fixpoint tuple_bytes (t : list element) : option (list Z) :=
  match t with
  | [] => Some []
  | e :: t' =>
      match payload e, tuple_bytes t' with
      | Some (k, pl), Some bs => Some (k :: pl ++ bs)
      | _, _ => None
      end
  end.

(** The bytes of the tuples after the first of a batch: each behind a
    [KIND_SEP]. *)
Fixpoint tail_bytes (l : list (list element)) : option (list Z) :=
  match l with
  | [] => Some []
  | t :: l' =>
      match tuple_bytes t, tail_bytes l' with
      | Some bs, Some bs' => Some (KIND_SEP :: bs ++ bs')
      | _, _ => None
      end
  end.

(** What may follow a tuple in a batch: nothing, or a separator. *)
Definition ends_tuple (rest : list Z) : Prop :=
  match rest with
  | [] => True
  | c :: _ => c = KIND_SEP
  end.

(** The reader after the separator, if there is one. *)
Definition after_sep (rest : list Z) : list Z :=
  match rest with
  | [] => []
  | _ :: rest' => rest'
  end.

End CodecAux.

(** The values at which the layout changes, each with its predecessor. *)
Definition varint_boundaries : list Z :=
  [0; 240; 241; 2287; 2288; 67823; 67824; 2 ^ 16 - 1; 2 ^ 16;
   2 ^ 24 - 1; 2 ^ 24; 2 ^ 32 - 1; 2 ^ 32; 2 ^ 40 - 1; 2 ^ 40;
   2 ^ 48 - 1; 2 ^ 48; 2 ^ 56 - 1; 2 ^ 56; 2 ^ 64 - 1].

Section KeyAux.
Context `{U : PyUnicode}.

(** An element that is not a boolean. *)
Definition no_bool (e : element) : Prop :=
  match e with
  | EBool _ => False
  | _ => True
  end.

End KeyAux.

(** The offsets behind [pos]: the running sums of the deltas [ds]. *)
Fixpoint offsets_from (pos : Z) (ds : list Z) : list Z :=
  match ds with
  | [] => []
  | d :: ds' => (pos + d) :: offsets_from (pos + d) ds'
  end.

(** The sum of a list of numbers. *)
Definition sum_list (ds : list Z) : Z := fold_right Z.add 0 ds.

(** *** Decoding any bytes *)

(** The number of bytes that follow the first byte [ch] of a varint. *)
Definition varint_more (ch : Z) : Z :=
  if ch <=? 240 then 0 else if ch <=? 248 then 1 else ch - 247.


(** An outcome that is neither a read outside the buffer nor a loop bound
    of the embedding used up. *)
Definition in_bounds {A} (r : result A) : Prop :=
  r <> Raise OutOfBounds /\ r <> Raise OutOfFuel.

(** * Lemmas *)

(** ** Elementary facts *)

Lemma u8_range z : 0 <= u8 z < 256.
Proof. unfold u8. apply Z.mod_pos_bound. lia. Qed.

Lemma u8_small z : 0 <= z < 256 -> u8 z = z.
Proof. intros H. unfold u8. apply Z.mod_small. exact H. Qed.

Lemma lxor_byte_range x y : 0 <= x < 256 -> 0 <= y < 256 -> 0 <= Z.lxor x y < 256.
Proof.
  intros Hx Hy. split.
  - apply Z.lxor_nonneg. lia.
  - destruct (Z.eq_dec (Z.lxor x y) 0) as [->|Hne]; [lia|].
    assert (Hp : 0 < Z.lxor x y) by (assert (0 <= Z.lxor x y) by (apply Z.lxor_nonneg; lia); lia).
    apply Z.log2_lt_pow2 with (b := 8); [exact Hp|].
    eapply Z.le_lt_trans; [apply Z.log2_lxor; lia|].
    apply Z.max_lub_lt.
    + destruct (Z.eq_dec x 0) as [->|]; [reflexivity|]. apply Z.log2_lt_pow2; lia.
    + destruct (Z.eq_dec y 0) as [->|]; [reflexivity|]. apply Z.log2_lt_pow2; lia.
Qed.

Lemma lxor_involutive x y : Z.lxor x (Z.lxor x y) = y.
Proof. rewrite <- Z.lxor_assoc, Z.lxor_nilpotent. apply Z.lxor_0_l. Qed.

Lemma lxor_involutive_r x y : Z.lxor (Z.lxor x y) x = y.
Proof. rewrite Z.lxor_comm. apply lxor_involutive. Qed.

(** *** The byte-string comparison, by cases on the two strings *)

Lemma bytes_compare_nil_nil : bytes_compare [] [] = 0.
Proof. reflexivity. Qed.

Lemma bytes_compare_nil_cons y b : bytes_compare [] (y :: b) = -1.
Proof. reflexivity. Qed.

Lemma bytes_compare_cons_nil x a : bytes_compare (x :: a) [] = 1.
Proof. reflexivity. Qed.

Lemma bytes_compare_cons x a y b :
  bytes_compare (x :: a) (y :: b) =
  if x <? y then -1 else if y <? x then 1 else bytes_compare a b.
Proof.
  unfold bytes_compare. cbn [length].
  change (S (length a) <? S (length b))%nat with (length a <? length b)%nat.
  change (S (length b) <? S (length a))%nat with (length b <? length a)%nat.
  destruct (length a <? length b)%nat; cbn [memcmp];
    destruct (x <? y); try reflexivity; destruct (y <? x); reflexivity.
Qed.

Lemma bytes_compare_refl a : bytes_compare a a = 0.
Proof.
  induction a as [|x a IH]; [reflexivity|].
  rewrite bytes_compare_cons, Z.ltb_irrefl. exact IH.
Qed.

Lemma bytes_compare_antisym a : forall b, bytes_compare b a = - bytes_compare a b.
Proof.
  induction a as [|x a IH]; intros [|y b]; try reflexivity.
  rewrite !bytes_compare_cons, IH.
  destruct (Z.ltb_spec x y), (Z.ltb_spec y x); try reflexivity; lia.
Qed.

Lemma bytes_compare_app_same p a b :
  bytes_compare (p ++ a) (p ++ b) = bytes_compare a b.
Proof.
  induction p as [|x p IH]; [reflexivity|].
  cbn [app]. rewrite bytes_compare_cons, Z.ltb_irrefl. exact IH.
Qed.

(** A function that is strictly monotone for [bytes_compare] reflects and
    preserves the order. *)
Lemma strictly_monotone_iff {A} (lt : A -> A -> Prop) (enc : A -> list Z) :
  (forall x y, lt x y \/ x = y \/ lt y x) ->
  (forall x y, lt x y -> bytes_compare (enc x) (enc y) = -1) ->
  forall x y, bytes_compare (enc x) (enc y) < 0 <-> lt x y.
Proof.
  intros Htri Hmono x y. split.
  - intros Hlt. destruct (Htri x y) as [H|[->|H]]; [exact H| |].
    + rewrite bytes_compare_refl in Hlt. lia.
    + apply Hmono in H. rewrite bytes_compare_antisym, H in Hlt. lia.
  - intros H. rewrite (Hmono _ _ H). lia.
Qed.

Lemma be_bytes_lt n : forall a b,
  0 <= a < b -> a / 256 ^ Z.of_nat n = b / 256 ^ Z.of_nat n ->
  bytes_compare (be_bytes n a) (be_bytes n b) = -1.
Proof.
  induction n as [|n IH]; intros a b Hab Hhi.
  - change (256 ^ Z.of_nat 0) with 1 in Hhi. rewrite !Z.div_1_r in Hhi. lia.
  - cbn [be_bytes]. rewrite bytes_compare_cons.
    rewrite !Z.shiftr_div_pow2 by lia.
    replace (2 ^ (8 * Z.of_nat n)) with (256 ^ Z.of_nat n)
      by (change 256 with (2 ^ 8); rewrite <- Z.pow_mul_r by lia; reflexivity).
    set (P := 256 ^ Z.of_nat n) in *.
    assert (HP : 0 < P) by (apply Z.pow_pos_nonneg; lia).
    replace (256 ^ Z.of_nat (S n)) with (P * 256) in Hhi
      by (rewrite Nat2Z.inj_succ, Z.pow_succ_r by lia; subst P; lia).
    rewrite <- !Z.div_div in Hhi by lia.
    assert (Hle : a / P <= b / P) by (apply Z.div_le_mono; lia).
    unfold u8.
    pose proof (Z.div_mod (a / P) 256 ltac:(lia)) as Ha.
    pose proof (Z.div_mod (b / P) 256 ltac:(lia)) as Hb.
    pose proof (Z.mod_pos_bound (a / P) 256 ltac:(lia)).
    pose proof (Z.mod_pos_bound (b / P) 256 ltac:(lia)).
    destruct (Z.ltb_spec ((a / P) mod 256) ((b / P) mod 256)); [reflexivity|].
    destruct (Z.ltb_spec ((b / P) mod 256) ((a / P) mod 256)); [lia|].
    apply IH; [lia|]. fold P. lia.
Qed.

Lemma be_bytes_lt_small n a b :
  0 <= a < b -> b < 256 ^ Z.of_nat n ->
  bytes_compare (be_bytes n a) (be_bytes n b) = -1.
Proof.
  intros Hab Hb. apply be_bytes_lt; [exact Hab|].
  rewrite !Z.div_small by lia. reflexivity.
Qed.

Lemma insert_at_end (w : list Z) x y l : <[length w := x]> (w ++ y :: l) = w ++ x :: l.
Proof.
  replace (length w) with (length w + 0)%nat by lia.
  rewrite insert_app_r. reflexivity.
Qed.

Lemma u8_lxor_u8 xor z : 0 <= xor < 256 -> u8 (Z.lxor xor (u8 z)) = Z.lxor xor (u8 z).
Proof. intros H. apply u8_small, lxor_byte_range; [exact H|apply u8_range]. Qed.

Lemma write_int_eq wtr v kind xor :
  0 <= v < 2 ^ 64 -> 0 <= xor < 256 ->
  write_int wtr v kind xor =
  wtr ++ kind_bytes kind ++ map (Z.lxor xor) (varint_bytes v).
Proof.
  intros Hv Hx. unfold write_int, varint_bytes, kind_bytes, writer_putc, writer_putchar, writer_ptr.
  set (w := if kind =? 0 then wtr else wtr ++ [u8 kind]).
  assert (Hw : wtr ++ (if kind =? 0 then [] else [u8 kind]) = w)
    by (subst w; destruct (kind =? 0); [apply app_nil_r|reflexivity]).
  rewrite !app_assoc, Hw. clearbody w. clear Hw.
  assert (Hb : forall z, 0 <= z < 256 -> u8 (Z.lxor xor z) = Z.lxor xor z)
    by (intros z Hz; apply u8_small, lxor_byte_range; assumption).
  destruct (Z.leb_spec v 240).
  { cbn [map]. rewrite Hb by lia. reflexivity. }
  destruct (Z.leb_spec v 2287).
  { cbn [map]. rewrite <- app_assoc. cbn [app].
    rewrite Z.shiftr_div_pow2, (Z.land_ones _ 8) by lia. change (2 ^ 8) with 256.
    assert (0 <= (v - 240) / 256 < 8) by (split; [apply Z.div_pos|apply Z.div_lt_upper_bound]; lia).
    pose proof (Z.mod_pos_bound (v - 240) 256 ltac:(lia)).
    rewrite (u8_small ((v - 240) / 256)) by lia.
    rewrite (u8_small ((v - 240) mod 256)) by lia.
    rewrite !Hb by lia. reflexivity. }
  destruct (Z.leb_spec v 67823).
  { cbn [map]. rewrite <- !app_assoc. cbn [app].
    rewrite Z.shiftr_div_pow2, (Z.land_ones _ 8) by lia. change (2 ^ 8) with 256.
    assert (0 <= (v - 2288) / 256 < 256) by (split; [apply Z.div_pos|apply Z.div_lt_upper_bound]; lia).
    pose proof (Z.mod_pos_bound (v - 2288) 256 ltac:(lia)).
    rewrite (u8_small ((v - 2288) / 256)) by lia.
    rewrite (u8_small ((v - 2288) mod 256)) by lia.
    rewrite !Hb by lia. reflexivity. }
  change (Z.shiftr v 0) with v.
  repeat match goal with
  | |- context [?a >? ?b] => destruct (Z.gtb_spec a b); try lia
  | |- context [?a <=? ?b] => destruct (Z.leb_spec a b); try lia
  end;
  cbn [map be_bytes Z.of_nat Pos.of_succ_nat Pos.succ Z.mul Pos.mul Z.add Pos.add];
  rewrite <- ?app_assoc; cbn [app]; rewrite insert_at_end;
  rewrite ?Z.shiftr_0_r, ?u8_lxor_u8 by exact Hx; rewrite !Hb by lia; reflexivity.
Qed.

(** *** Order of the encodings *)

Ltac cmp_first :=
  rewrite bytes_compare_cons;
  match goal with
  | |- (if ?x <? ?y then _ else _) = _ =>
      destruct (Z.ltb_spec x y); [reflexivity|];
      destruct (Z.ltb_spec y x); [exfalso; lia|]
  end.

Lemma be_bytes_lt_bound n bound a b :
  bound = 256 ^ Z.of_nat n -> 0 <= a < b -> b < bound ->
  bytes_compare (be_bytes n a) (be_bytes n b) = -1.
Proof. intros ->. apply be_bytes_lt_small. Qed.

Lemma varint_bytes_lt a b :
  0 <= a < b -> b < 2 ^ 64 ->
  bytes_compare (varint_bytes a) (varint_bytes b) = -1.
Proof.
  intros Hab Hb. unfold varint_bytes.
  pose proof (Z.div_mod (a - 240) 256 ltac:(lia)).
  pose proof (Z.mod_pos_bound (a - 240) 256 ltac:(lia)).
  pose proof (Z.div_mod (b - 240) 256 ltac:(lia)).
  pose proof (Z.mod_pos_bound (b - 240) 256 ltac:(lia)).
  pose proof (Z.div_mod (a - 2288) 256 ltac:(lia)).
  pose proof (Z.mod_pos_bound (a - 2288) 256 ltac:(lia)).
  pose proof (Z.div_mod (b - 2288) 256 ltac:(lia)).
  pose proof (Z.mod_pos_bound (b - 2288) 256 ltac:(lia)).
  repeat match goal with
  | |- context [?x <=? ?y] => destruct (Z.leb_spec x y); try lia
  end;
  repeat first
    [ reflexivity
    | cmp_first
    | exfalso; lia
    | eapply be_bytes_lt_bound; [reflexivity|lia|lia] ].
Qed.

Lemma varint_bytes_order a b :
  0 <= a < 2 ^ 64 -> 0 <= b < 2 ^ 64 ->
  (bytes_compare (varint_bytes a) (varint_bytes b) < 0 <-> a < b).
Proof.
  intros Ha Hb. split.
  - intros Hlt. destruct (Z.lt_trichotomy a b) as [H|[->|H]]; [exact H| |].
    + rewrite bytes_compare_refl in Hlt. lia.
    + rewrite bytes_compare_antisym, (varint_bytes_lt b a) in Hlt; lia.
  - intros H. rewrite varint_bytes_lt; lia.
Qed.

(** *** Decoding what was encoded *)

Lemma read_shifted_cons xor x rdr v k :
  read_shifted (Z.lxor xor x :: rdr) xor v k = Ok (Z.lor v (Z.shiftl x k), rdr).
Proof. unfold read_shifted. cbn [reader_getchar bind]. rewrite lxor_involutive. reflexivity. Qed.

Lemma reader_ensure_true (rdr : reader) n :
  n <= Z.of_nat (length rdr) -> reader_ensure rdr n = true.
Proof. intros H. unfold reader_ensure. apply Z.leb_le. exact H. Qed.

Lemma hi_0 v : hi v 0 = v.
Proof. unfold hi. rewrite Z.shiftr_0_r, Z.shiftl_0_r. reflexivity. Qed.

Lemma join_step v k k' :
  0 <= k -> k' = k + 8 ->
  Z.lor (hi v k') (Z.shiftl (u8 (Z.shiftr v k)) k) = hi v k.
Proof.
  intros Hk ->. unfold hi, u8. change 256 with (2 ^ 8). Z.bitblast.
Qed.

Lemma join_start v k k' :
  0 <= k -> k' = k + 8 -> 0 <= v < 2 ^ k' ->
  Z.lor 0 (Z.shiftl (u8 (Z.shiftr v k)) k) = hi v k.
Proof.
  intros Hk -> Hv. rewrite <- (join_step v k (k + 8)) by lia.
  f_equal. unfold hi. rewrite Z.shiftr_div_pow2, Z.div_small by lia. rewrite Z.shiftl_0_l. reflexivity.
Qed.

Lemma read_plain_int_varint v xor rest :
  0 <= v < 2 ^ 64 -> 0 <= xor < 256 ->
  read_plain_int (map (Z.lxor xor) (varint_bytes v) ++ rest) xor = Ok (v, rest).
Proof.
  intros Hv Hx. unfold varint_bytes.
  pose proof (Z.div_mod (v - 240) 256 ltac:(lia)).
  pose proof (Z.mod_pos_bound (v - 240) 256 ltac:(lia)).
  pose proof (Z.div_mod (v - 2288) 256 ltac:(lia)).
  pose proof (Z.mod_pos_bound (v - 2288) 256 ltac:(lia)).
  repeat match goal with
  | |- context [?x <=? ?y] => destruct (Z.leb_spec x y); try lia
  end;
  cbn [map app be_bytes];
  repeat match goal with
  | |- context [8 * Z.of_nat ?n] =>
      let r := eval compute in (8 * Z.of_nat n) in change (8 * Z.of_nat n) with r
  end;
  unfold read_plain_int; cbn [reader_getc]; rewrite lxor_involutive_r;
  repeat match goal with
  | |- context [?x <=? ?y] => destruct (Z.leb_spec x y); try lia
  | |- context [?x =? ?y] => destruct (Z.eqb_spec x y); try lia
  end;
  rewrite ?Z.geb_leb;
  repeat match goal with
  | |- context [?x <=? ?y] => destruct (Z.leb_spec x y); try lia
  end;
  try reflexivity;
  (rewrite reader_ensure_true by (cbn [length]; lia));
  cbn [bind reader_getchar];
  repeat (rewrite read_shifted_cons; cbn [bind]);
  rewrite ?lxor_involutive; f_equal; f_equal; try lia.
  all: first [ rewrite (join_start v 56 64) by lia
             | rewrite (join_start v 48 56) by lia
             | rewrite (join_start v 40 48) by lia
             | rewrite (join_start v 32 40) by lia
             | rewrite (join_start v 24 32) by lia
             | rewrite (join_start v 16 24) by lia ];
    rewrite ?(join_step v 48 56), ?(join_step v 40 48), ?(join_step v 32 40),
      ?(join_step v 24 32), ?(join_step v 16 24), ?(join_step v 8 16),
      ?(join_step v 0 8) by lia;
    apply hi_0.
Qed.

Lemma in_all_bytes b : 0 <= b < 256 -> In b all_bytes.
Proof.
  intros Hb. unfold all_bytes. apply in_map_iff. exists (Z.to_nat b). split.
  - lia.
  - apply in_seq. lia.
Qed.

Lemma in_all_shifts s : 1 <= s <= 7 -> In s all_shifts.
Proof.
  intros Hs. unfold all_shifts. cbn [In].
  assert (s = 1 \/ s = 2 \/ s = 3 \/ s = 4 \/ s = 5 \/ s = 6 \/ s = 7) by lia.
  intuition auto.
Qed.

Lemma forall_byte_spec f :
  forall_byte f = true -> forall b, 0 <= b < 256 -> f b = true.
Proof.
  intros H b Hb. unfold forall_byte in H.
  rewrite forallb_forall in H. apply H, in_all_bytes, Hb.
Qed.

Lemma forall_shift_spec f :
  forall_shift f = true -> forall s, 1 <= s <= 7 -> f s = true.
Proof.
  intros H s Hs. unfold forall_shift in H.
  rewrite forallb_forall in H. apply H, in_all_shifts, Hs.
Qed.

Lemma out_byte_split_check :
  forall_shift (fun s => forall_byte (fun t => forall_byte (fun o =>
    implb (carry_ok s t) (out_byte t o s =? u8 (Z.lor 128 t) + Z.shiftr o s))))
  = true.
Proof. vm_compute. reflexivity. Qed.

Lemma carry_next_check :
  forall_shift (fun s => forall_byte (fun o =>
    implb (s <? 7)
      (carry_ok (s + 1) (carry o s) &&
       (Z.shiftr o (s + 1) <? 2 ^ (7 - s)))))
  = true.
Proof. vm_compute. reflexivity. Qed.

Lemma carry_gap_check :
  forall_shift (fun s => forall_byte (fun a => forall_byte (fun b =>
    implb ((s <? 7) && (a <? b) && (Z.shiftr a s =? Z.shiftr b s))
      (u8 (Z.lor 128 (carry a s)) + 2 ^ (7 - s) <=? u8 (Z.lor 128 (carry b s))))))
  = true.
Proof. vm_compute. reflexivity. Qed.

Lemma last_shift_check :
  forall_byte (fun a => forall_byte (fun b =>
    implb ((a <? b) && (Z.shiftr a 7 =? Z.shiftr b 7))
      (u8 (Z.lor 128 a) <? u8 (Z.lor 128 b))))
  = true.
Proof. vm_compute. reflexivity. Qed.

Lemma out_byte_split s t o :
  1 <= s <= 7 -> 0 <= t < 256 -> 0 <= o < 256 -> carry_ok s t = true ->
  out_byte t o s = u8 (Z.lor 128 t) + Z.shiftr o s.
Proof.
  intros Hs Ht Ho Hok.
  pose proof (forall_shift_spec _ out_byte_split_check s Hs) as H. cbv beta in H.
  pose proof (forall_byte_spec _ H t Ht) as H1. cbv beta in H1.
  pose proof (forall_byte_spec _ H1 o Ho) as H2. cbv beta in H2.
  rewrite Hok in H2. apply Z.eqb_eq. exact H2.
Qed.

Lemma carry_next s o :
  1 <= s < 7 -> 0 <= o < 256 ->
  carry_ok (s + 1) (carry o s) = true /\ Z.shiftr o (s + 1) < 2 ^ (7 - s).
Proof.
  intros Hs Ho.
  pose proof (forall_shift_spec _ carry_next_check s ltac:(lia)) as H. cbv beta in H.
  pose proof (forall_byte_spec _ H o Ho) as H1. cbv beta in H1.
  destruct (Z.ltb_spec s 7); [|lia]. cbn [implb] in H1.
  apply andb_true_iff in H1. destruct H1 as [H1 H2]. split; [exact H1|].
  apply Z.ltb_lt. exact H2.
Qed.

Lemma carry_gap s a b :
  1 <= s < 7 -> 0 <= a < 256 -> 0 <= b < 256 ->
  a < b -> Z.shiftr a s = Z.shiftr b s ->
  u8 (Z.lor 128 (carry a s)) + 2 ^ (7 - s) <= u8 (Z.lor 128 (carry b s)).
Proof.
  intros Hs Ha Hb Hab Heq.
  pose proof (forall_shift_spec _ carry_gap_check s ltac:(lia)) as H. cbv beta in H.
  pose proof (forall_byte_spec _ H a Ha) as H1. cbv beta in H1.
  pose proof (forall_byte_spec _ H1 b Hb) as H2. cbv beta in H2.
  destruct (Z.ltb_spec s 7); [|lia]. destruct (Z.ltb_spec a b); [|lia].
  rewrite Heq, Z.eqb_refl in H2. cbn [andb implb] in H2.
  apply Z.leb_le. exact H2.
Qed.

Lemma last_shift a b :
  0 <= a < 256 -> 0 <= b < 256 ->
  a < b -> Z.shiftr a 7 = Z.shiftr b 7 ->
  u8 (Z.lor 128 a) < u8 (Z.lor 128 b).
Proof.
  intros Ha Hb Hab Heq.
  pose proof (forall_byte_spec _ last_shift_check a Ha) as H1. cbv beta in H1.
  pose proof (forall_byte_spec _ H1 b Hb) as H2. cbv beta in H2.
  destruct (Z.ltb_spec a b); [|lia].
  rewrite Heq, Z.eqb_refl in H2. cbn [andb implb] in H2.
  apply Z.ltb_lt. exact H2.
Qed.

Lemma shiftr_mono s a b : 0 <= s -> a <= b -> Z.shiftr a s <= Z.shiftr b s.
Proof.
  intros Hs Hab. rewrite !Z.shiftr_div_pow2 by lia.
  apply Z.div_le_mono; [apply Z.pow_pos_nonneg; lia|exact Hab].
Qed.

Lemma shiftr_byte_nonneg s o : 0 <= o -> 0 <= Z.shiftr o s.
Proof. intros Ho. apply Z.shiftr_nonneg. exact Ho. Qed.

Lemma carry_range o s : 0 <= carry o s < 256.
Proof. apply u8_range. Qed.


(** *** The loop of [write_str], unfolded *)

Lemma write_str_loop_app p : forall wtr shift trailer,
  write_str_loop wtr p shift trailer = wtr ++ write_str_loop [] p shift trailer.
Proof.
  induction p as [|o p IH]; intros wtr shift trailer; cbn [write_str_loop].
  - unfold writer_putchar. destruct (shift >? 1); [reflexivity|].
    symmetry. apply app_nil_r.
  - unfold writer_putchar. destruct (shift <? 7).
    + rewrite IH, (IH ([] ++ _)). rewrite <- app_assoc. reflexivity.
    + rewrite IH, (IH (([] ++ _) ++ _)). rewrite <- !app_assoc. reflexivity.
Qed.

Lemma write_str_loop_cons o p shift trailer :
  write_str_loop [] (o :: p) shift trailer =
  out_byte trailer o shift ::
    (if shift <? 7 then write_str_loop [] p (shift + 1) (carry o shift)
     else u8 (Z.lor 128 o) :: write_str_loop [] p 1 0).
Proof.
  cbn [write_str_loop]. unfold writer_putchar. destruct (shift <? 7).
  - rewrite write_str_loop_app. reflexivity.
  - rewrite write_str_loop_app. reflexivity.
Qed.

Lemma write_str_loop_nonempty p shift trailer :
  1 < shift -> write_str_loop [] p shift trailer <> [].
Proof.
  intros Hs. destruct p as [|o p].
  - cbn [write_str_loop]. destruct (Z.gtb_spec shift 1); [|lia]. discriminate.
  - rewrite write_str_loop_cons. discriminate.
Qed.

Lemma bytes_compare_nil_l b : b <> [] -> bytes_compare [] b = -1.
Proof. destruct b; [congruence|reflexivity]. Qed.

(** *** Order of the escaped strings *)

(** Two inputs whose carries already differ: the next byte decides. *)
Lemma write_str_loop_lt_carry s a b x y :
  1 <= s < 7 -> 0 <= a < 256 -> 0 <= b < 256 ->
  a < b -> Z.shiftr a s = Z.shiftr b s ->
  wf_bytes x -> wf_bytes y ->
  bytes_compare (write_str_loop [] x (s + 1) (carry a s))
                (write_str_loop [] y (s + 1) (carry b s)) = -1.
Proof.
  intros Hs Ha Hb Hab Heq Hx Hy.
  pose proof (carry_gap s a b Hs Ha Hb Hab Heq) as Hgap.
  destruct (carry_next s a Hs Ha) as [Hoka _].
  destruct (carry_next s b Hs Hb) as [Hokb _].
  assert (Hleft : forall o, 0 <= o < 256 ->
            out_byte (carry a s) o (s + 1) < u8 (Z.lor 128 (carry b s))).
  { intros o Ho. rewrite out_byte_split by (try apply carry_range; auto; lia).
    destruct (carry_next s o Hs Ho) as [_ Hq]. lia. }
  assert (Hright : forall o, 0 <= o < 256 ->
            u8 (Z.lor 128 (carry b s)) <= out_byte (carry b s) o (s + 1)).
  { intros o Ho. rewrite out_byte_split by (try apply carry_range; auto; lia).
    pose proof (shiftr_byte_nonneg (s + 1) o ltac:(lia)). lia. }
  assert (Hpow : 0 < 2 ^ (7 - s)) by (apply Z.pow_pos_nonneg; lia).
  destruct x as [|o x]; destruct y as [|o' y];
    rewrite ?write_str_loop_cons; cbn [write_str_loop];
    try (destruct (Z.gtb_spec (s + 1) 1); [|lia]); unfold writer_putchar; cbn [app];
    rewrite bytes_compare_cons.
  - destruct (Z.ltb_spec (u8 (Z.lor 128 (carry a s))) (u8 (Z.lor 128 (carry b s)))); [reflexivity|lia].
  - inversion Hy; subst. specialize (Hright o' ltac:(assumption)).
    destruct (Z.ltb_spec (u8 (Z.lor 128 (carry a s))) (out_byte (carry b s) o' (s + 1))); [reflexivity|lia].
  - inversion Hx; subst. specialize (Hleft o ltac:(assumption)).
    destruct (Z.ltb_spec (out_byte (carry a s) o (s + 1)) (u8 (Z.lor 128 (carry b s)))); [reflexivity|lia].
  - inversion Hx; inversion Hy; subst.
    specialize (Hleft o ltac:(assumption)). specialize (Hright o' ltac:(assumption)).
    destruct (Z.ltb_spec (out_byte (carry a s) o (s + 1)) (out_byte (carry b s) o' (s + 1))); [reflexivity|lia].
Qed.

Lemma bytes_compare_sign a : forall b,
  bytes_compare a b = -1 \/ bytes_compare a b = 0 /\ a = b \/ bytes_compare a b = 1.
Proof.
  induction a as [|x a IH]; intros [|y b]; cbn; auto.
  rewrite bytes_compare_cons.
  destruct (Z.ltb_spec x y) as [Hxy|Hxy]; [auto|].
  destruct (Z.ltb_spec y x) as [Hyx|Hyx]; [auto|].
  assert (x = y) by lia. subst y.
  destruct (IH b) as [E|[[E ->]|E]]; auto.
Qed.

Lemma bytes_compare_lt_iff a b : bytes_compare a b < 0 <-> bytes_compare a b = -1.
Proof. destruct (bytes_compare_sign a b) as [H|[[H _]|H]]; rewrite H; lia. Qed.

(** Two inputs in the same state: the first differing input byte decides. *)
Lemma write_str_loop_lt x : forall y s t,
  wf_bytes x -> wf_bytes y -> bytes_compare x y = -1 ->
  1 <= s <= 7 -> 0 <= t < 256 -> carry_ok s t = true ->
  bytes_compare (write_str_loop [] x s t) (write_str_loop [] y s t) = -1.
Proof.
  induction x as [|a x IH]; intros [|b y] s t Hx Hy Hlt Hs Ht Hok;
    try discriminate Hlt.
  - (* the shorter input is a prefix *)
    inversion Hy as [|? ? Hb Hy']; subst.
    rewrite write_str_loop_cons. cbn [write_str_loop].
    destruct (Z.gtb_spec s 1); [|reflexivity].
    unfold writer_putchar. cbn [app]. rewrite bytes_compare_cons.
    rewrite out_byte_split by auto.
    pose proof (shiftr_byte_nonneg s b ltac:(lia)).
    destruct (Z.ltb_spec (u8 (Z.lor 128 t)) (u8 (Z.lor 128 t) + Z.shiftr b s)); [reflexivity|].
    destruct (Z.ltb_spec (u8 (Z.lor 128 t) + Z.shiftr b s) (u8 (Z.lor 128 t))); [lia|].
    apply bytes_compare_nil_l.
    destruct (Z.ltb_spec s 7); [apply write_str_loop_nonempty; lia|discriminate].
  - inversion Hx as [|? ? Ha Hx']; inversion Hy as [|? ? Hb Hy']; subst.
    rewrite bytes_compare_cons in Hlt.
    rewrite !write_str_loop_cons, bytes_compare_cons.
    rewrite !out_byte_split by auto.
    destruct (Z.ltb_spec a b) as [Hab|Hab].
    + (* the inputs differ here *)
      pose proof (shiftr_mono s a b ltac:(lia) ltac:(lia)) as Hmono.
      destruct (Z.ltb_spec (u8 (Z.lor 128 t) + Z.shiftr a s) (u8 (Z.lor 128 t) + Z.shiftr b s));
        [reflexivity|].
      destruct (Z.ltb_spec (u8 (Z.lor 128 t) + Z.shiftr b s) (u8 (Z.lor 128 t) + Z.shiftr a s));
        [lia|].
      assert (Heq : Z.shiftr a s = Z.shiftr b s) by lia.
      destruct (Z.ltb_spec s 7).
      * apply write_str_loop_lt_carry; auto; lia.
      * assert (s = 7) by lia. subst s.
        rewrite bytes_compare_cons.
        pose proof (last_shift a b Ha Hb Hab Heq).
        destruct (Z.ltb_spec (u8 (Z.lor 128 a)) (u8 (Z.lor 128 b))); [reflexivity|lia].
    + destruct (Z.ltb_spec b a); [discriminate Hlt|].
      assert (a = b) by lia. subst b.
      rewrite Z.ltb_irrefl.
      destruct (Z.ltb_spec s 7).
      * apply IH; auto; try lia; try apply carry_range.
        apply carry_next; auto; lia.
      * rewrite bytes_compare_cons, Z.ltb_irrefl.
        apply IH; auto; lia.
Qed.

Lemma write_str_payload p : write_str [] p 0 = write_str_loop [] p 1 0.
Proof. reflexivity. Qed.

Lemma write_str_order x y :
  wf_bytes x -> wf_bytes y ->
  (bytes_compare (write_str [] x 0) (write_str [] y 0) < 0 <-> bytes_compare x y < 0).
Proof.
  intros Hx Hy. rewrite !write_str_payload, !bytes_compare_lt_iff.
  assert (Hmono : forall u v, wf_bytes u -> wf_bytes v -> bytes_compare u v = -1 ->
            bytes_compare (write_str_loop [] u 1 0) (write_str_loop [] v 1 0) = -1).
  { intros u v Hu Hv Huv. apply write_str_loop_lt; auto; lia. }
  split.
  - intros Hlt. destruct (bytes_compare_sign x y) as [H|[[H ->]|H]]; [exact H| |].
    + rewrite bytes_compare_refl in Hlt. discriminate.
    + assert (Hyx : bytes_compare y x = -1) by (rewrite bytes_compare_antisym, H; reflexivity).
      apply (Hmono y x Hy Hx) in Hyx.
      rewrite bytes_compare_antisym, Hyx in Hlt. discriminate.
  - apply Hmono; assumption.
Qed.

(** Every byte [write_str] emits after the kind has its high bit set. *)
Lemma u8_lor_128 z : 128 <= u8 (Z.lor 128 z) < 256.
Proof.
  split; [|apply u8_range].
  assert (Hbit : Z.testbit (Z.lor 128 z) 7 = true)
    by (rewrite Z.lor_spec; reflexivity).
  apply Z.testbit_true in Hbit; [|lia]. change (2 ^ 7) with 128 in Hbit.
  unfold u8. revert Hbit. generalize (Z.lor 128 z). intros w Hw.
  Z.div_mod_to_equations. lia.
Qed.

Lemma write_str_loop_high p : forall s t,
  Forall (fun b => 128 <= b < 256) (write_str_loop [] p s t).
Proof.
  induction p as [|o p IH]; intros s t.
  - cbn [write_str_loop]. destruct (s >? 1); [|constructor].
    unfold writer_putchar. cbn [app]. constructor; [apply u8_lor_128|constructor].
  - rewrite write_str_loop_cons. constructor.
    + unfold out_byte. rewrite <- Z.lor_assoc. apply u8_lor_128.
    + destruct (s <? 7); [apply IH|]. constructor; [apply u8_lor_128|apply IH].
Qed.

(** *** Decoding an escaped string *)

Lemma rebuilt_check :
  forall_shift (fun s => forall_byte (fun o => forall_byte (fun q =>
    implb ((s <? 7) && (q <? 2 ^ (7 - s)))
      (rebuilt o s (u8 (Z.lor 128 (carry o s)) + q) =? o))))
  = true.
Proof. vm_compute. reflexivity. Qed.

Lemma rebuilt_last_check :
  forall_byte (fun o => rebuilt o 7 (u8 (Z.lor 128 o)) =? o) = true.
Proof. vm_compute. reflexivity. Qed.

Lemma holds_high_check :
  forall_shift (fun s => forall_byte (fun t => forall_byte (fun o =>
    implb (carry_ok s t)
      (u8 (Z.shiftl (out_byte t o s) s) =? Z.shiftl (Z.shiftr o s) s))))
  = true.
Proof. vm_compute. reflexivity. Qed.

Lemma rebuilt_carry s o q :
  1 <= s < 7 -> 0 <= o < 256 -> 0 <= q < 2 ^ (7 - s) ->
  rebuilt o s (u8 (Z.lor 128 (carry o s)) + q) = o.
Proof.
  intros Hs Ho Hq.
  assert (Hq' : 0 <= q < 256).
  { split; [lia|]. apply Z.lt_le_trans with (2 ^ (7 - s)); [lia|].
    change 256 with (2 ^ 8). apply Z.pow_le_mono_r; lia. }
  pose proof (forall_shift_spec _ rebuilt_check s ltac:(lia)) as H. cbv beta in H.
  pose proof (forall_byte_spec _ H o Ho) as H1. cbv beta in H1.
  pose proof (forall_byte_spec _ H1 q Hq') as H2. cbv beta in H2.
  destruct (Z.ltb_spec s 7); [|lia].
  destruct (Z.ltb_spec q (2 ^ (7 - s))); [|lia].
  cbn [andb implb] in H2. apply Z.eqb_eq. exact H2.
Qed.

Lemma rebuilt_last o : 0 <= o < 256 -> rebuilt o 7 (u8 (Z.lor 128 o)) = o.
Proof.
  intros Ho. apply Z.eqb_eq.
  exact (forall_byte_spec _ rebuilt_last_check o Ho).
Qed.

Lemma holds_high_out_byte s t o :
  1 <= s <= 7 -> 0 <= t < 256 -> 0 <= o < 256 -> carry_ok s t = true ->
  holds_high (out_byte t o s) s o.
Proof.
  intros Hs Ht Ho Hok. unfold holds_high.
  pose proof (forall_shift_spec _ holds_high_check s Hs) as H. cbv beta in H.
  pose proof (forall_byte_spec _ H t Ht) as H1. cbv beta in H1.
  pose proof (forall_byte_spec _ H1 o Ho) as H2. cbv beta in H2.
  rewrite Hok in H2. apply Z.eqb_eq. exact H2.
Qed.

Lemma out_byte_high t o s : 128 <= out_byte t o s < 256.
Proof. unfold out_byte. rewrite <- Z.lor_assoc. apply u8_lor_128. Qed.

Lemma read_str_loop_end rest lb shift wtr :
  ends_string rest -> read_str_loop rest lb shift wtr = (wtr, rest).
Proof.
  destruct rest as [|c rest]; [reflexivity|]. cbn [ends_string read_str_loop].
  intros Hc. destruct (Z.ltb_spec c 128); [reflexivity|lia].
Qed.

(** One round of the loop of [read_str] on a byte with its high bit set. *)
Lemma read_str_loop_step cb rdr lb shift wtr o :
  128 <= cb -> holds_high lb shift o -> rebuilt o shift cb = o ->
  read_str_loop (cb :: rdr) lb shift wtr =
  if shift <? 7 then read_str_loop rdr cb (shift + 1) (wtr ++ [o])
  else
    match rdr with
    | [] => (wtr ++ [o], [])
    | lb' :: rdr'' =>
        if lb' <? 128 then (wtr ++ [o], rdr)
        else read_str_loop rdr'' lb' 1 (wtr ++ [o])
    end.
Proof.
  intros Hcb Hlb Hre. cbn [read_str_loop].
  destruct (Z.ltb_spec cb 128); [lia|].
  unfold writer_putc, writer_putchar. unfold holds_high in Hlb. rewrite Hlb.
  unfold rebuilt in Hre. rewrite Hre. reflexivity.
Qed.

Lemma read_str_loop_write n : forall p s o lb wtr rest,
  (length p <= n)%nat -> wf_bytes p -> 1 <= s < 7 -> 0 <= o < 256 ->
  holds_high lb s o -> ends_string rest ->
  read_str_loop (write_str_loop [] p (s + 1) (carry o s) ++ rest) lb s wtr =
  (wtr ++ o :: p, rest).
Proof.
  induction n as [|n IH]; intros p s o lb wtr rest Hlen Hp Hs Ho Hlb Hrest.
  - destruct p; [|cbn in Hlen; lia].
    cbn [write_str_loop]. destruct (Z.gtb_spec (s + 1) 1); [|lia].
    unfold writer_putchar. cbn [app].
    rewrite (read_str_loop_step _ _ _ _ _ o); auto.
    + destruct (Z.ltb_spec s 7); [|lia]. apply read_str_loop_end, Hrest.
    + apply u8_lor_128.
    + rewrite <- (Z.add_0_r (u8 _)). apply rebuilt_carry; auto.
      split; [lia|]. apply Z.pow_pos_nonneg; lia.
  - destruct p as [|o' p].
    { apply IH; auto. cbn. lia. }
    inversion Hp as [|? ? Ho' Hp']; subst.
    destruct (carry_next s o Hs Ho) as [Hok _].
    destruct (carry_next s o' Hs Ho') as [_ Hq].
    rewrite write_str_loop_cons. cbn [app].
    rewrite (read_str_loop_step _ _ _ _ _ o); auto.
    2: apply out_byte_high.
    2: { rewrite out_byte_split by (try apply carry_range; auto; lia).
         apply rebuilt_carry; auto. split; [apply shiftr_byte_nonneg; lia|exact Hq]. }
    destruct (Z.ltb_spec s 7); [|lia].
    assert (Hinv : holds_high (out_byte (carry o s) o' (s + 1)) (s + 1) o')
      by (apply holds_high_out_byte; auto; try apply carry_range; lia).
    destruct (Z.ltb_spec (s + 1) 7).
    + rewrite IH; auto; try lia.
      * rewrite <- app_assoc. reflexivity.
      * cbn in Hlen. lia.
    + assert (s = 6) by lia. subst s. cbn [app].
      change (6 + 1) with 7 in *.
      rewrite (read_str_loop_step _ _ _ _ _ o'); auto.
      2: apply u8_lor_128.
      2: apply rebuilt_last; auto.
      change (7 <? 7) with false. cbv iota.
      destruct p as [|o'' p].
      * cbn [write_str_loop]. change (1 >? 1) with false. cbv iota. cbn [app].
        rewrite <- app_assoc. cbn [app].
        destruct rest as [|c rest]; [reflexivity|].
        cbn [ends_string] in Hrest. destruct (Z.ltb_spec c 128); [reflexivity|lia].
      * inversion Hp' as [|? ? Ho'' Hp'']; subst.
        rewrite write_str_loop_cons. change (1 <? 7) with true. cbv iota. cbn [app].
        pose proof (out_byte_high 0 o'' 1).
        destruct (Z.ltb_spec (out_byte 0 o'' 1) 128); [lia|].
        change 2 with (1 + 1). rewrite IH; auto; try lia.
        -- rewrite <- !app_assoc. reflexivity.
        -- cbn in Hlen. lia.
        -- apply holds_high_out_byte; auto; lia.
Qed.

Lemma read_str_write_str p rest :
  wf_bytes p -> ends_string rest ->
  read_str (write_str_loop [] p 1 0 ++ rest) = Ok (p, rest).
Proof.
  intros Hp Hrest. destruct p as [|o p].
  - cbn [write_str_loop]. change (1 >? 1) with false. cbv iota. cbn [app].
    destruct rest as [|c rest]; [reflexivity|]. cbn [read_str].
    cbn [ends_string] in Hrest. destruct (Z.ltb_spec c 128); [reflexivity|lia].
  - inversion Hp as [|? ? Ho Hp']; subst.
    rewrite write_str_loop_cons. change (1 <? 7) with true. cbv iota. cbn [app read_str].
    pose proof (out_byte_high 0 o 1).
    destruct (Z.ltb_spec (out_byte 0 o 1) 128); [lia|].
    change 2 with (1 + 1).
    rewrite (read_str_loop_write (length p)); auto; try lia.
    apply holds_high_out_byte; auto; lia.
Qed.

(** ** Elements *)

(** *** The kind tags *)

Ltac split_hyps :=
  repeat match goal with
  | H : _ && _ = true |- _ => apply andb_true_iff in H; destruct H
  | H : negb (_ =? _) = true |- _ => apply negb_true_iff, Z.eqb_neq in H
  | H : (_ <=? _) = true |- _ => apply Z.leb_le in H
  | H : (_ <? _) = true |- _ => apply Z.ltb_lt in H
  | H : true = true |- _ => clear H
  end.

(** From [kinds_ok]: the range of every tag as hypotheses, and the
    inequality of every two kept folded in one hypothesis (a context with
    all 45 of them is more than [lia] can take). *)
Lemma kinds_ok_split `{Kinds} :
  kinds_ok = true ->
  forallb (fun k => (1 <=? k) && (k <? 128)) all_kinds = true /\
  distinct all_kinds = true.
Proof. unfold kinds_ok. intros H0. apply andb_true_iff in H0. exact H0. Qed.

Ltac kinds_intro H :=
  let Hr := fresh "Hrange" in
  let Hd := fresh "Hdistinct" in
  destruct (kinds_ok_split H) as [Hr Hd];
  unfold all_kinds in Hr; cbn [forallb] in Hr; split_hyps.

Ltac kinds_neq :=
  match goal with
  | Hd : distinct all_kinds = true |- _ <> _ =>
      let H' := fresh in
      pose proof Hd as H'; clear Hd;
      unfold all_kinds in H'; cbn [distinct forallb] in H'; split_hyps;
      first [assumption | apply not_eq_sym; assumption]
  end.

(** Decide the comparisons of two tags, or of a tag and itself. *)
Ltac kind_eqb :=
  repeat match goal with
  | |- context [?a =? ?a] => rewrite (Z.eqb_refl a)
  | |- context [?a =? ?b] =>
      let E := fresh in
      assert (E : (a =? b) = false) by (apply Z.eqb_neq; kinds_neq);
      rewrite E; clear E
  end;
  cbn [orb andb negb].

Section ElementFacts.
Context `{K : Kinds} `{U : PyUnicode}.
Hypothesis Hkinds : kinds_ok = true.

Lemma kind_bytes_kind k : 1 <= k < 128 -> kind_bytes k = [k].
Proof.
  intros Hk. unfold kind_bytes. destruct (Z.eqb_spec k 0); [lia|].
  rewrite u8_small by lia. reflexivity.
Qed.

Lemma write_str_eq wtr p kind :
  1 <= kind < 128 ->
  write_str wtr p kind = wtr ++ kind :: write_str_loop [] p 1 0.
Proof.
  intros Hk. unfold write_str. destruct (Z.eqb_spec kind 0); [lia|].
  rewrite write_str_loop_app. unfold writer_putchar.
  rewrite u8_small by lia. rewrite <- app_assoc. reflexivity.
Qed.

Lemma write_element_payload wtr e wtr' :
  write_element wtr e = Ok wtr' ->
  exists k pl, payload e = Some (k, pl) /\ wtr' = wtr ++ k :: pl.
Proof using Hkinds.
  kinds_intro Hkinds.
  destruct e as [|v|s|u|b|ss|]; cbn [write_element payload]; intros Hw.
  - injection Hw as <-. eexists _, _. split; [reflexivity|].
    unfold writer_putc, writer_putchar. rewrite u8_small by lia. reflexivity.
  - destruct (fits_int64 v) eqn:Hfit; [|discriminate].
    unfold fits_int64 in Hfit. split_hyps.
    destruct (Z.ltb_spec v 0); injection Hw as <-; eexists _, _; (split; [reflexivity|]).
    + unfold u64. rewrite Z.mod_small by lia.
      rewrite write_int_eq by lia. rewrite kind_bytes_kind by lia. reflexivity.
    + unfold u64. rewrite Z.mod_small by lia.
      rewrite write_int_eq by lia. rewrite kind_bytes_kind by lia. reflexivity.
  - injection Hw as <-. eexists _, _. split; [reflexivity|].
    apply write_str_eq. lia.
  - destruct (PyUnicode_EncodeUTF8 u); [|discriminate]. injection Hw as <-.
    eexists _, _. split; [reflexivity|]. apply write_str_eq. lia.
  - injection Hw as <-. eexists _, _. split; [reflexivity|].
    unfold writer_putc, writer_putchar. rewrite u8_small by lia.
    rewrite u8_small by (destruct b; lia). rewrite <- app_assoc. reflexivity.
  - injection Hw as <-. eexists _, _. split; [reflexivity|].
    unfold writer_putc, writer_putchar, writer_puts. rewrite u8_small by lia.
    rewrite <- app_assoc. reflexivity.
  - discriminate.
Qed.

Lemma payload_write_element wtr e k pl :
  payload e = Some (k, pl) -> write_element wtr e = Ok (wtr ++ k :: pl).
Proof using Hkinds.
  intros Hp. destruct (write_element wtr e) as [wtr'|err] eqn:Hw.
  - destruct (write_element_payload _ _ _ Hw) as (k' & pl' & Hp' & ->).
    rewrite Hp in Hp'. injection Hp' as <- <-. reflexivity.
  - destruct e as [|v|s|u|b|ss|]; cbn [write_element payload] in *; try discriminate.
    + destruct (fits_int64 v); [|discriminate]. destruct (v <? 0); discriminate.
    + destruct (PyUnicode_EncodeUTF8 u); discriminate.
Qed.

(** The tag of an element is one of the nine element tags. *)
Lemma payload_kind e k pl :
  payload e = Some (k, pl) ->
  1 <= k < 128 /\ k <> KIND_SEP.
Proof using Hkinds.
  kinds_intro Hkinds.
  destruct e as [|v|s|u|b|ss|]; cbn [payload]; intros Hp;
    try (destruct (fits_int64 v); [destruct (v <? 0)|]);
    try destruct (PyUnicode_EncodeUTF8 u);
    try discriminate; injection Hp as <- <-; (split; [lia|kinds_neq]).
Qed.

Lemma read_element_payload e k pl rest :
  utf8_ok -> wf_element e -> payload e = Some (k, pl) -> ends_string rest ->
  read_element (k :: pl ++ rest) = Ok (e, rest).
Proof using Hkinds.
  intros Hutf Hwf Hp Hrest. kinds_intro Hkinds.
  unfold read_element. cbn [reader_getchar bind].
  destruct e as [|v|s|u|b|ss|]; cbn [payload wf_element] in *.
  - injection Hp as <- <-. kind_eqb. reflexivity.
  - destruct (fits_int64 v) eqn:Hfit; [|discriminate].
    unfold fits_int64 in Hfit. split_hyps.
    destruct (Z.ltb_spec v 0); injection Hp as <- <-; kind_eqb; unfold read_int.
    + rewrite read_plain_int_varint by lia. cbn [bind].
      rewrite Z.opp_involutive. reflexivity.
    + rewrite read_plain_int_varint by lia. reflexivity.
  - injection Hp as <- <-. kind_eqb.
    rewrite read_str_write_str by assumption. reflexivity.
  - destruct (PyUnicode_EncodeUTF8 u) as [utf8|] eqn:Henc; [|discriminate].
    injection Hp as <- <-. kind_eqb.
    destruct (Hutf u utf8 Henc) as [Hb Hdec].
    rewrite read_str_write_str by assumption. cbn [bind]. rewrite Hdec. reflexivity.
  - injection Hp as <- <-. kind_eqb.
    destruct b; reflexivity.
  - injection Hp as <- <-. kind_eqb. destruct Hwf as [Hb Hlen].
    unfold read_uuid. rewrite reader_ensure_true by (rewrite length_app; lia).
    rewrite take_app_length' by (symmetry; exact Hlen).
    rewrite drop_app_length' by (symmetry; exact Hlen). reflexivity.
  - discriminate.
Qed.

End ElementFacts.

(** ** Tuples and batches *)

Section TupleFacts.
Context `{K : Kinds} `{U : PyUnicode}.
Hypothesis Hkinds : kinds_ok = true.
Hypothesis Hutf : utf8_ok.

Lemma write_tuple_bytes t : forall wtr wtr',
  write_tuple wtr t = Ok wtr' ->
  exists bs, tuple_bytes t = Some bs /\ wtr' = wtr ++ bs.
Proof using Hkinds.
  induction t as [|e t IH]; intros wtr wtr' Hw; cbn [write_tuple tuple_bytes] in *.
  - injection Hw as <-. exists []. split; [reflexivity|]. symmetry. apply app_nil_r.
  - destruct (write_element wtr e) as [w1|] eqn:He; [|discriminate]. cbn [bind] in Hw.
    destruct (write_element_payload Hkinds _ _ _ He) as (k & pl & Hp & ->).
    destruct (IH _ _ Hw) as (bs & Hbs & ->).
    rewrite Hp, Hbs. eexists. split; [reflexivity|].
    rewrite <- app_assoc. reflexivity.
Qed.

Lemma tuple_bytes_write t : forall wtr bs,
  tuple_bytes t = Some bs -> write_tuple wtr t = Ok (wtr ++ bs).
Proof using Hkinds.
  induction t as [|e t IH]; intros wtr bs Hbs; cbn [write_tuple tuple_bytes] in *.
  - injection Hbs as <-. rewrite app_nil_r. reflexivity.
  - destruct (payload e) as [[k pl]|] eqn:Hp; [|discriminate].
    destruct (tuple_bytes t) as [bs'|] eqn:Ht; [|discriminate].
    injection Hbs as <-.
    rewrite (payload_write_element Hkinds _ _ _ _ Hp). cbn [bind].
    rewrite (IH _ _ eq_refl). rewrite <- app_assoc. reflexivity.
Qed.

(** The bytes of a tuple start with the tag of an element, if at all. *)
Lemma tuple_bytes_head t bs :
  tuple_bytes t = Some bs ->
  match bs with
  | [] => t = []
  | k :: _ => 1 <= k < 128 /\ k <> KIND_SEP /\ t <> []
  end.
Proof using Hkinds.
  destruct t as [|e t]; cbn [tuple_bytes].
  - intros [= <-]. reflexivity.
  - destruct (payload e) as [[k pl]|] eqn:Hp; [|discriminate].
    destruct (tuple_bytes t); [|discriminate]. intros [= <-].
    destruct (payload_kind Hkinds _ _ _ Hp) as [Hr Hs].
    split; [exact Hr|]. split; [exact Hs|discriminate].
Qed.

Lemma sep_range : 1 <= KIND_SEP < 128.
Proof using Hkinds. kinds_intro Hkinds. lia. Qed.

Lemma ends_string_app bs rest t :
  tuple_bytes t = Some bs -> ends_tuple rest -> ends_string (bs ++ rest).
Proof using Hkinds.
  intros Hbs Hrest. pose proof (tuple_bytes_head _ _ Hbs) as Hh.
  destruct bs as [|k bs]; cbn [app ends_string].
  - destruct rest as [|c rest]; [exact I|]. cbn [ends_tuple] in Hrest. subst c.
    cbn [ends_string]. pose proof sep_range. lia.
  - lia.
Qed.

Lemma unpack_loop_tuple t : forall fuel tup bs rest,
  Forall wf_element t -> tuple_bytes t = Some bs -> ends_tuple rest ->
  (length bs <= fuel)%nat ->
  unpack_loop fuel (bs ++ rest) tup = Ok (tup ++ t, after_sep rest).
Proof using Hkinds Hutf.
  induction t as [|e t IH]; intros fuel tup bs rest Hwf Hbs Hrest Hfuel;
    cbn [tuple_bytes] in Hbs.
  - injection Hbs as <-. cbn [app]. rewrite app_nil_r.
    destruct rest as [|c rest]; [destruct fuel; reflexivity|].
    cbn [ends_tuple] in Hrest. subst c. destruct fuel; cbn [unpack_loop after_sep];
      rewrite Z.eqb_refl; reflexivity.
  - destruct (payload e) as [[k pl]|] eqn:Hp; [|discriminate].
    destruct (tuple_bytes t) as [bs'|] eqn:Ht; [|discriminate].
    injection Hbs as <-.
    inversion Hwf as [|? ? Hwe Hwt]; subst.
    destruct (payload_kind Hkinds _ _ _ Hp) as [Hk Hsep].
    destruct fuel as [|fuel]; [cbn in Hfuel; lia|].
    cbn [app unpack_loop].
    destruct (Z.eqb_spec k KIND_SEP); [contradiction|].
    rewrite <- app_assoc.
    rewrite (read_element_payload Hkinds e k pl (bs' ++ rest)); auto.
    2: eapply ends_string_app; eauto.
    cbn [bind]. rewrite (IH fuel (tup ++ [e]) bs' rest); auto.
    + rewrite <- app_assoc. reflexivity.
    + cbn [length] in Hfuel. rewrite length_app in Hfuel. lia.
Qed.

Lemma unpack_tuple t bs rest :
  Forall wf_element t -> tuple_bytes t = Some bs -> ends_tuple rest ->
  unpack (bs ++ rest) = Ok (t, after_sep rest).
Proof using Hkinds Hutf.
  intros Hwf Hbs Hrest. unfold unpack.
  rewrite (unpack_loop_tuple t _ [] bs rest); auto.
  rewrite length_app. lia.
Qed.

(** *** Batches *)


Lemma tail_bytes_ends l bs : tail_bytes l = Some bs -> ends_tuple bs.
Proof.
  destruct l as [|t l]; cbn [tail_bytes].
  - intros [= <-]. exact I.
  - destruct (tuple_bytes t); [|discriminate].
    destruct (tail_bytes l); [|discriminate]. intros [= <-]. reflexivity.
Qed.



Lemma memcmp_same a : forall b, memcmp a (a ++ b) (length a) = 0.
Proof.
  induction a as [|x a IH]; intros b; [reflexivity|].
  cbn [length app memcmp]. rewrite Z.ltb_irrefl. apply IH.
Qed.

End TupleFacts.

(** ** Skipping and indexing *)

Lemma varint_bytes_shape v :
  0 <= v < 2 ^ 64 ->
  exists c tl, varint_bytes v = c :: tl /\ 0 <= c < 256 /\
    ((c <= 240 /\ tl = []) \/
     (240 < c <= 248 /\ length tl = 1%nat) \/
     (249 <= c /\ Z.of_nat (length tl) = 8 - (255 - c))).
Proof.
  intros Hv. unfold varint_bytes.
  pose proof (Z.div_mod (v - 240) 256 ltac:(lia)).
  pose proof (Z.mod_pos_bound (v - 240) 256 ltac:(lia)).
  repeat match goal with
  | |- context [?x <=? ?y] => destruct (Z.leb_spec x y)
  end;
  eexists _, _; (split; [reflexivity|]); (split; [lia|]);
  cbn [length be_bytes]; first [left; split; [lia|reflexivity] | lia].
Qed.

Lemma land_128_check :
  forall_byte (fun b => Bool.eqb (Z.land 128 b =? 0) (b <? 128)) = true.
Proof. vm_compute. reflexivity. Qed.

Lemma land_128_zero b : 0 <= b < 256 -> (Z.land 128 b =? 0) = (b <? 128).
Proof.
  intros Hb. pose proof (forall_byte_spec _ land_128_check b Hb) as H.
  cbv beta in H. apply Bool.eqb_prop in H. exact H.
Qed.

Lemma skip_high_string pl rest :
  Forall (fun b => 128 <= b < 256) pl -> ends_string rest ->
  skip_high (pl ++ rest) = rest.
Proof.
  intros Hpl Hrest. induction Hpl as [|b pl Hb Hpl IH]; cbn [app skip_high].
  - destruct rest as [|c rest]; [reflexivity|]. cbn [skip_high ends_string] in *.
    rewrite land_128_zero by lia. destruct (Z.ltb_spec c 128); [reflexivity|lia].
  - rewrite land_128_zero by lia. destruct (Z.ltb_spec b 128); [lia|]. exact IH.
Qed.

Section SkipFacts.
Context `{K : Kinds} `{U : PyUnicode}.
Hypothesis Hkinds : kinds_ok = true.
Hypothesis Hutf : utf8_ok.

Lemma reader_advance_app (pl rest : list Z) n :
  Z.of_nat (length pl) = n -> reader_advance (pl ++ rest) n = Ok rest.
Proof.
  intros Hn. unfold reader_advance.
  destruct (Z.leb_spec n (Z.of_nat (length (pl ++ rest)))) as [_|Hgt];
    [|rewrite length_app in Hgt; lia].
  replace (Z.to_nat n) with (length pl) by lia.
  rewrite drop_app_length. reflexivity.
Qed.

(** [skip_element] on a varint payload behind an integer kind. *)
Lemma skip_varint (xor v : Z) (rest : list Z) (eof : bool) :
  0 <= v < 2 ^ 64 ->
  (let* (b, rdr) := reader_getchar (map (Z.lxor xor) (varint_bytes v) ++ rest) in
   let ch := Z.lxor xor b in
   if (ch <=? 248) && (ch >? 240) then
     let* rdr := reader_advance rdr 1 in Ok (rdr, eof || reader_at_end rdr)
   else if ch >=? 249 then
     let* rdr := reader_advance rdr (8 - (255 - ch)) in
     Ok (rdr, eof || reader_at_end rdr)
   else Ok (rdr, eof || reader_at_end rdr))
  = Ok (rest, eof || reader_at_end rest).
Proof.
  intros Hv. destruct (varint_bytes_shape v Hv) as (c & tl & -> & Hc & Hshape).
  cbn [map app reader_getchar bind]. rewrite lxor_involutive.
  rewrite Z.geb_leb.
  destruct Hshape as [[Hle ->]|[[Hr Hlen]|[Hr Hlen]]].
  - destruct (Z.leb_spec c 248); [|lia]. destruct (Z.gtb_spec c 240); [lia|].
    destruct (Z.leb_spec 249 c); [lia|]. reflexivity.
  - destruct (Z.leb_spec c 248); [|lia]. destruct (Z.gtb_spec c 240); [|lia].
    cbn [andb]. rewrite reader_advance_app by (rewrite length_map; lia).
    reflexivity.
  - destruct (Z.leb_spec c 248); [lia|]. cbn [andb].
    destruct (Z.leb_spec 249 c); [|lia].
    rewrite reader_advance_app by (rewrite length_map; lia).
    reflexivity.
Qed.

Lemma skip_element_payload e k pl rest eof :
  wf_element e -> no_bool e -> payload e = Some (k, pl) -> ends_string rest ->
  skip_element (k :: pl ++ rest) eof = Ok (rest, eof || reader_at_end rest).
Proof using Hkinds Hutf.
  intros Hwf Hnb Hp Hrest. kinds_intro Hkinds.
  unfold skip_element. cbn [reader_getchar bind].
  destruct e as [|v|s|u|b|ss|]; cbn [payload wf_element no_bool] in *.
  - injection Hp as <- <-. kind_eqb. reflexivity.
  - destruct (fits_int64 v) eqn:Hfit; [|discriminate].
    unfold fits_int64 in Hfit. split_hyps.
    destruct (Z.ltb_spec v 0); injection Hp as <- <-; kind_eqb;
      apply skip_varint; lia.
  - injection Hp as <- <-. kind_eqb.
    rewrite skip_high_string; auto. apply write_str_loop_high.
  - destruct (PyUnicode_EncodeUTF8 u) as [utf8|] eqn:Henc; [|discriminate].
    injection Hp as <- <-. kind_eqb.
    rewrite skip_high_string; auto. apply write_str_loop_high.
  - contradiction.
  - injection Hp as <- <-. kind_eqb. destruct Hwf as [_ Hlen].
    rewrite reader_advance_app by lia. reflexivity.
  - discriminate.
Qed.

(** The value byte of a boolean is left in the reader. *)
Lemma skip_element_bool (b : bool) (rest : list Z) (eof : bool) :
  skip_element (KIND_BOOL :: (if b then 1 else 0) :: rest) eof
  = Ok ((if b then 1 else 0) :: rest, eof).
Proof.
  unfold skip_element. cbn [reader_getchar bind].
  rewrite Z.eqb_refl. cbn [orb reader_at_end]. rewrite orb_false_r. reflexivity.
Qed.

End SkipFacts.

Section KeyFacts.
Context `{K : Kinds} `{U : PyUnicode}.
Hypothesis Hkinds : kinds_ok = true.
Hypothesis Hutf : utf8_ok.

Lemma key_new_bytes t k :
  key_new t = Ok k -> tuple_bytes t = Some (key_bytes k).
Proof using Hkinds.
  unfold key_new. intros Hn.
  destruct (write_tuple [] t) as [w|] eqn:Hw; [|discriminate].
  injection Hn as <-.
  destruct (write_tuple_bytes Hkinds _ _ _ Hw) as (bs & Hbs & ->).
  exact Hbs.
Qed.

Lemma tuple_bytes_ends t bs : tuple_bytes t = Some bs -> ends_string bs.
Proof using Hkinds.
  intros Hbs. rewrite <- (app_nil_r bs).
  eapply ends_string_app; eauto. exact I.
Qed.

Lemma tuple_bytes_at_end t bs :
  tuple_bytes t = Some bs -> reader_at_end bs = match t with [] => true | _ => false end.
Proof using Hkinds.
  intros Hbs. pose proof (tuple_bytes_head Hkinds _ _ Hbs) as Hh.
  destruct bs as [|c bs]; [subst t; reflexivity|].
  destruct Hh as (_ & _ & Hne). destruct t; [congruence|reflexivity].
Qed.

Lemma tuple_bytes_length t bs :
  tuple_bytes t = Some bs -> (length t <= length bs)%nat.
Proof.
  revert bs. induction t as [|e t IH]; intros bs; cbn [tuple_bytes].
  - intros [= <-]. cbn. lia.
  - destruct (payload e) as [[k pl]|]; [|discriminate].
    destruct (tuple_bytes t) as [bs'|]; [|discriminate]. intros [= <-].
    specialize (IH _ eq_refl). cbn [length]. rewrite length_app. lia.
Qed.

Lemma key_length_loop_eof fuel rdr len :
  key_length_loop fuel rdr true len = Ok len.
Proof. destruct fuel; reflexivity. Qed.

Lemma key_length_loop_tuple t : forall fuel bs len,
  Forall wf_element t -> Forall no_bool t -> tuple_bytes t = Some bs ->
  t <> [] -> (length t <= fuel)%nat ->
  key_length_loop fuel bs false len = Ok (len + Z.of_nat (length t)).
Proof using Hkinds Hutf.
  induction t as [|e t IH]; intros fuel bs len Hwf Hnb Hbs Hne Hfuel; [congruence|].
  cbn [tuple_bytes] in Hbs.
  destruct (payload e) as [[k pl]|] eqn:Hp; [|discriminate].
  destruct (tuple_bytes t) as [bs'|] eqn:Ht; [|discriminate].
  injection Hbs as <-.
  inversion Hwf as [|? ? Hwe Hwt]; inversion Hnb as [|? ? Hne' Hnt]; subst.
  destruct fuel as [|fuel]; [cbn in Hfuel; lia|].
  cbn [key_length_loop].
  rewrite (skip_element_payload Hkinds Hutf e k pl bs'); auto.
  2: eapply tuple_bytes_ends; eauto.
  cbn [bind orb]. rewrite (tuple_bytes_at_end _ _ Ht).
  destruct t as [|e' t].
  - rewrite key_length_loop_eof. cbn [length]. reflexivity.
  - assert (Hlen : (length (e' :: t) <= fuel)%nat) by (cbn [length] in *; lia).
    rewrite (IH fuel bs' (len + 1) Hwt Hnt eq_refl ltac:(discriminate) Hlen).
    f_equal. cbn [length]. lia.
Qed.

(** Without booleans, [key_length] counts the elements. *)
Lemma key_length_no_bool t k :
  Forall wf_element t -> Forall no_bool t -> key_new t = Ok k ->
  key_length k = Ok (Z.of_nat (length t)).
Proof using Hkinds Hutf.
  intros Hwf Hnb Hn. apply key_new_bytes in Hn.
  unfold key_length. rewrite (tuple_bytes_at_end _ _ Hn).
  destruct t as [|e t].
  - apply key_length_loop_eof.
  - rewrite (key_length_loop_tuple (e :: t) _ _ 0 Hwf Hnb Hn
               ltac:(discriminate) (tuple_bytes_length _ _ Hn)).
    reflexivity.
Qed.

(** *** Iteration *)

Lemma iterate_tuple t : forall fuel pre bs acc,
  Forall wf_element t -> tuple_bytes t = Some bs -> (length t <= fuel)%nat ->
  iterate fuel (mkKeyIter (mkKey (pre ++ bs)) (length pre)) acc = Ok (acc ++ t).
Proof using Hkinds Hutf.
  induction t as [|e t IH]; intros fuel pre bs acc Hwf Hbs Hfuel;
    cbn [tuple_bytes] in Hbs.
  - injection Hbs as <-. rewrite !app_nil_r.
    assert (Hnext : keyiter_next (mkKeyIter (mkKey pre) (length pre))
                    = (None, mkKeyIter (mkKey pre) (length pre))).
    { unfold keyiter_next. cbn [iter_key iter_pos key_bytes].
      rewrite Nat.leb_refl. reflexivity. }
    destruct fuel; cbn [iterate]; rewrite Hnext; reflexivity.
  - destruct (payload e) as [[k pl]|] eqn:Hp; [|discriminate].
    destruct (tuple_bytes t) as [bs'|] eqn:Ht; [|discriminate].
    injection Hbs as <-.
    inversion Hwf as [|? ? Hwe Hwt]; subst.
    destruct fuel as [|fuel]; [cbn in Hfuel; lia|].
    assert (Hnext : keyiter_next (mkKeyIter (mkKey (pre ++ k :: pl ++ bs')) (length pre))
              = (Some (Ok e),
                 mkKeyIter (mkKey ((pre ++ k :: pl) ++ bs')) (length (pre ++ k :: pl)))).
    { unfold keyiter_next. cbn [iter_key iter_pos key_bytes].
      destruct (Nat.leb_spec (length (pre ++ k :: pl ++ bs')) (length pre)) as [Hle|_];
        [rewrite length_app in Hle; cbn [length] in Hle; lia|].
      rewrite drop_app_length.
      rewrite (read_element_payload Hkinds e k pl bs'); auto.
      2: eapply tuple_bytes_ends; eauto.
      f_equal. rewrite <- app_assoc. cbn [app]. f_equal.
      rewrite !length_app. cbn [length]. rewrite length_app. lia. }
    cbn [iterate]. rewrite Hnext.
    rewrite (IH fuel (pre ++ k :: pl) bs' (acc ++ [e]) Hwt eq_refl
               ltac:(cbn [length] in Hfuel; lia)).
    rewrite <- app_assoc. reflexivity.
Qed.

(** Iterating a Key built from a tuple yields the tuple, booleans or not. *)
Lemma key_elements_tuple t k :
  Forall wf_element t -> key_new t = Ok k -> key_elements k = Ok t.
Proof using Hkinds Hutf.
  intros Hwf Hn. apply key_new_bytes in Hn. unfold key_elements, key_iter.
  destruct k as [bs]. cbn [key_bytes] in *.
  exact (iterate_tuple t (length bs) [] bs [] Hwf Hn (tuple_bytes_length _ _ Hn)).
Qed.

(** *** Indexing *)

Lemma key_item_loop_eof fuel i rdr :
  key_item_loop fuel i rdr true = Ok (rdr, true).
Proof. destruct fuel; cbn [key_item_loop]; rewrite andb_false_r; reflexivity. Qed.

Lemma key_item_loop_tuple t : forall fuel i bs,
  Forall wf_element t -> Forall no_bool t -> tuple_bytes t = Some bs ->
  t <> [] -> 0 <= i -> (length t <= fuel)%nat ->
  exists bs', tuple_bytes (drop (Z.to_nat i) t) = Some bs' /\
    key_item_loop fuel i bs false = Ok (bs', Z.of_nat (length t) <=? i).
Proof using Hkinds Hutf.
  induction t as [|e t IH]; intros fuel i bs Hwf Hnb Hbs Hne Hi Hfuel; [congruence|].
  destruct (Z.eq_dec i 0) as [->|Hi0].
  { exists bs. split; [exact Hbs|].
    destruct fuel; cbn [key_item_loop Z.eqb negb andb]; reflexivity. }
  pose proof Hbs as Hbs0. cbn [tuple_bytes] in Hbs.
  destruct (payload e) as [[k pl]|] eqn:Hp; [|discriminate].
  destruct (tuple_bytes t) as [bs'|] eqn:Ht; [|discriminate].
  injection Hbs as <-.
  inversion Hwf as [|? ? Hwe Hwt]; inversion Hnb as [|? ? Hne' Hnt]; subst.
  destruct fuel as [|fuel]; [cbn in Hfuel; lia|].
  cbn [key_item_loop]. destruct (Z.eqb_spec i 0); [lia|]. cbn [negb andb].
  rewrite (skip_element_payload Hkinds Hutf e k pl bs'); auto.
  2: eapply tuple_bytes_ends; eauto.
  cbn [bind orb]. rewrite (tuple_bytes_at_end _ _ Ht).
  replace (Z.to_nat i) with (S (Z.to_nat (i - 1))) by lia. cbn [drop].
  destruct t as [|e' t].
  - rewrite key_item_loop_eof. exists []. rewrite drop_nil.
    split; [reflexivity|]. injection Ht as <-. f_equal. f_equal.
    cbn [length]. symmetry. apply Z.leb_le. lia.
  - assert (Hlen : (length (e' :: t) <= fuel)%nat) by (cbn [length] in *; lia).
    destruct (IH fuel (i - 1) bs' Hwt Hnt eq_refl ltac:(discriminate) ltac:(lia) Hlen)
      as (bs'' & Hd & Hloop).
    exists bs''. split; [exact Hd|]. rewrite Hloop. f_equal. f_equal.
    cbn [length].
    destruct (Z.leb_spec (Z.of_nat (S (length t))) (i - 1)),
             (Z.leb_spec (Z.of_nat (S (S (length t)))) i); try reflexivity; lia.
Qed.

(** [key_item] on a Key built from a tuple without booleans: an index from
    [0] to [n - 1] gives the element, any other index, negative ones
    included, is out of range. *)
Lemma key_item_no_bool t k i :
  Forall wf_element t -> Forall no_bool t -> key_new t = Ok k ->
  key_item k i =
  if (0 <=? i) && (i <? Z.of_nat (length t)) then
    match t !! Z.to_nat i with
    | Some e => Ok e
    | None => Raise PyIndexError
    end
  else Raise PyIndexError.
Proof using Hkinds Hutf.
  intros Hwf Hnb Hn. pose proof (key_length_no_bool t k Hwf Hnb Hn) as Hlen.
  apply key_new_bytes in Hn. unfold key_item. rewrite Hlen.
  rewrite (tuple_bytes_at_end _ _ Hn).
  assert (Hempty : (match t with [] => true | _ => false end = true /\ t = []) \/
                   (match t with [] => true | _ => false end = false /\ t <> []))
    by (destruct t; [left|right]; split; congruence).
  revert Hempty. generalize (match t with [] => true | _ => false end).
  intros eof0 Hempty.
  set (n := Z.of_nat (length t)) in *.
  set (i' := if i <? 0 then n - i else i).
  assert (Hi' : 0 <= i') by (subst i' n; destruct (Z.ltb_spec i 0); lia).
  assert (Hstate :
    (if i <? 0 then (n - i, eof0 || (n - i <? 0)) else (i, eof0)) = (i', eof0)).
  { subst i'. destruct (Z.ltb_spec i 0); [|reflexivity].
    destruct (Z.ltb_spec (n - i) 0); [subst n; lia|].
    rewrite orb_false_r. reflexivity. }
  rewrite Hstate. clear Hstate.
  destruct Hempty as [[-> Ht0]|[-> Hne]].
  - rewrite key_item_loop_eof. cbn [bind].
    destruct ((0 <=? i) && (i <? n)) eqn:Hr; [|reflexivity].
    subst n t. cbn [length] in Hr. split_hyps. lia.
  - destruct (key_item_loop_tuple t (length (key_bytes k)) i' (key_bytes k)
                Hwf Hnb Hn Hne Hi' (tuple_bytes_length _ _ Hn))
      as (bs' & Hd & Hloop).
    rewrite Hloop. cbn [bind]. fold n.
    destruct (Z.leb_spec n i') as [Hout|Hin].
    + destruct (Z.leb_spec 0 i); [|reflexivity].
      destruct (Z.ltb_spec i n); [|reflexivity].
      subst i'. destruct (Z.ltb_spec i 0); lia.
    + assert (Hii : i' = i) by (subst i'; destruct (Z.ltb_spec i 0); lia).
      rewrite Hii in *. clear Hii.
      destruct (Z.leb_spec 0 i); [|lia]. destruct (Z.ltb_spec i n); [|lia].
      cbn [andb].
      destruct (lookup_lt_is_Some_2 t (Z.to_nat i) ltac:(subst n; lia)) as [e He].
      rewrite He.
      apply list_elem_of_split_length in He.
      destruct He as (l1 & l2 & Ht' & Hl1).
      rewrite Ht' in Hd. rewrite Hl1 in Hd. rewrite drop_app_length in Hd.
      cbn [tuple_bytes] in Hd.
      destruct (payload e) as [[ke ple]|] eqn:Hpe; [|discriminate].
      destruct (tuple_bytes l2) as [bs2|] eqn:Hl2; [|discriminate].
      injection Hd as <-.
      rewrite (read_element_payload Hkinds e ke ple bs2); auto.
      * rewrite Ht' in Hwf. apply Forall_app in Hwf. destruct Hwf as [_ Hwf].
        inversion Hwf; assumption.
      * eapply tuple_bytes_ends; eauto.
Qed.

(** No kind is [0]: a value byte [0] read as a kind is a bad kind. *)
Lemma skip_element_zero rest eof :
  skip_element (0 :: rest) eof = Raise PyValueError.
Proof using Hkinds.
  kinds_intro Hkinds. unfold skip_element. cbn [reader_getchar bind].
  repeat match goal with
  | |- context [0 =? ?b] =>
      let E := fresh in
      assert (E : (0 =? b) = false) by (apply Z.eqb_neq; lia);
      rewrite E; clear E
  end.
  reflexivity.
Qed.

Lemma read_element_bool (b : bool) (rest : list Z) :
  read_element (KIND_BOOL :: (if b then 1 else 0) :: rest) = Ok (EBool b, rest).
Proof using Hkinds.
  kinds_intro Hkinds. unfold read_element. cbn [reader_getchar bind].
  kind_eqb. destruct b; reflexivity.
Qed.

End KeyFacts.

(** ** The sample tags and codec satisfy what the theorems assume *)

Lemma sample_kinds_ok : @kinds_ok Sample.kinds = true.
Proof. reflexivity. Qed.

Lemma sample_utf8_ok : @utf8_ok Sample.ascii.
Proof.
  intros u s. cbn [PyUnicode_EncodeUTF8 PyUnicode_DecodeUTF8 Sample.ascii].
  unfold Sample.ascii_encode, Sample.ascii_decode.
  destruct (forallb _ u) eqn:Hall; [|discriminate]. intros [= <-].
  rewrite Hall. split; [|reflexivity].
  apply Forall_forall. intros c Hc.
  rewrite forallb_forall in Hall.
  apply list_elem_of_In in Hc. specialize (Hall c Hc).
  apply andb_true_iff in Hall. destruct Hall as [H0 H1].
  apply Z.leb_le in H0. apply Z.ltb_lt in H1. lia.
Qed.

Lemma write_int_plain v :
  0 <= v < 2 ^ 64 -> write_int [] v 0 0 = varint_bytes v.
Proof.
  intros Hv. rewrite write_int_eq by lia. cbn [kind_bytes Z.eqb app].
  rewrite <- (map_id (varint_bytes v)) at 2. apply map_ext. intros x. apply Z.lxor_0_l.
Qed.

Lemma memcmp_take a : forall b n,
  (n <= length a)%nat -> (n <= length b)%nat ->
  memcmp a b n = 0 -> take n a = take n b.
Proof.
  induction a as [|x a IH]; intros b n Ha Hb Hm.
  - cbn in Ha. assert (n = 0%nat) by lia. subst n. destruct b; reflexivity.
  - destruct n as [|n]; [reflexivity|]. destruct b as [|y b]; [cbn in Hb; lia|].
    cbn [memcmp] in Hm. cbn [take].
    destruct (Z.ltb_spec x y); [discriminate|].
    destruct (Z.ltb_spec y x); [discriminate|].
    assert (x = y) by lia. subst y. f_equal.
    apply IH; cbn [length] in *; first [lia | exact Hm].
Qed.

Lemma memcmp_refl a : memcmp a a (length a) = 0.
Proof. rewrite <- (app_nil_r a) at 2. apply memcmp_same. Qed.

(** ** The loop bounds are enough

    Every round of every loop moves its reader on, so the bound each
    top-level function gives its loop, the length of its input, is never
    used up: [OutOfFuel] is not an outcome of the code. *)

Lemma reader_getchar_shorter rdr b rdr' :
  reader_getchar rdr = Ok (b, rdr') -> length rdr = S (length rdr').
Proof. destruct rdr; [discriminate|]. intros [= <- <-]. reflexivity. Qed.

Lemma read_shifted_shorter rdr xor v k v' rdr' :
  read_shifted rdr xor v k = Ok (v', rdr') -> length rdr = S (length rdr').
Proof.
  unfold read_shifted. destruct rdr; [discriminate|].
  cbn [reader_getchar bind]. intros [= <- <-]. reflexivity.
Qed.

Lemma bind_ok {A B} (m : result A) (k : A -> result B) b :
  bind m k = Ok b -> exists a, m = Ok a /\ k a = Ok b.
Proof. destruct m as [a|]; [|discriminate]. cbn [bind]. eauto. Qed.

Lemma read_plain_int_shorter rdr xor v rdr' :
  read_plain_int rdr xor = Ok (v, rdr') -> (length rdr' < length rdr)%nat.
Proof.
  unfold read_plain_int. destruct rdr as [|ch rdr]; [discriminate|].
  cbn [reader_getc length].
  assert (Hopt : forall (c : bool) k v0 (r0 : reader) v1 r1,
            (if c then read_shifted r0 xor v0 k else Ok (v0, r0)) = Ok (v1, r1) ->
            (length r1 <= length r0)%nat).
  { intros c k v0 r0 v1 r1. destruct c.
    - intros H. apply read_shifted_shorter in H. lia.
    - intros [= <- <-]. lia. }
  repeat match goal with
  | |- context [if ?c then _ else _] =>
      match c with
      | _ >=? _ => fail 1
      | _ => destruct c
      end
  end; intros H; try discriminate H.
  - injection H as <- <-. lia.
  - apply bind_ok in H. destruct H as ([b r] & H1 & H2).
    apply reader_getchar_shorter in H1. injection H2 as <- <-. lia.
  - apply bind_ok in H. destruct H as ([b r] & H1 & H2).
    apply reader_getchar_shorter in H1.
    apply bind_ok in H2. destruct H2 as ([b2 r2] & H2 & H3).
    apply reader_getchar_shorter in H2. injection H3 as <- <-. lia.
  - repeat match type of H with
    | bind _ _ = Ok _ =>
        let p := fresh "p" in let E := fresh "E" in
        apply bind_ok in H; destruct H as ([? ?] & E & H);
        first [apply Hopt in E | apply read_shifted_shorter in E]
    end.
    injection H as <- <-. lia.
Qed.

Lemma read_str_loop_shorter n : forall rdr lb shift wtr,
  (length rdr <= n)%nat ->
  (length (snd (read_str_loop rdr lb shift wtr)) <= length rdr)%nat.
Proof.
  induction n as [|n IH]; intros rdr lb shift wtr Hn.
  - destruct rdr; [cbn; lia|cbn in Hn; lia].
  - destruct rdr as [|cb rdr]; [cbn; lia|]. cbn [read_str_loop].
    destruct (cb <? 128); [cbn; lia|].
    destruct (shift <? 7).
    + specialize (IH rdr cb (shift + 1) (writer_putc wtr
        (Z.lor (u8 (Z.shiftl lb shift)) (Z.shiftr (Z.land cb 127) (7 - shift))))).
      cbn [length] in *. lia.
    + destruct rdr as [|lb' rdr]; [cbn; lia|].
      destruct (lb' <? 128); [cbn; lia|].
      specialize (IH rdr lb' 1 (writer_putc wtr
        (Z.lor (u8 (Z.shiftl lb shift)) (Z.shiftr (Z.land cb 127) (7 - shift))))).
      cbn [length] in *. lia.
Qed.

Lemma read_str_shorter rdr s rdr' :
  read_str rdr = Ok (s, rdr') -> (length rdr' <= length rdr)%nat.
Proof.
  unfold read_str. destruct rdr as [|lb rdr]; [intros [= <- <-]; lia|].
  destruct (lb <? 128); [intros [= <- <-]; lia|].
  intros [= H]. pose proof (read_str_loop_shorter (length rdr) rdr lb 1 [] ltac:(lia)) as Hs.
  rewrite H in Hs. cbn [snd length] in *. lia.
Qed.

Lemma skip_high_shorter rdr : (length (skip_high rdr) <= length rdr)%nat.
Proof.
  induction rdr as [|b rdr IH]; cbn [skip_high length]; [lia|].
  destruct (Z.land 128 b =? 0); cbn [length]; lia.
Qed.

Lemma reader_advance_shorter rdr n rdr' :
  reader_advance rdr n = Ok rdr' -> (length rdr' <= length rdr)%nat.
Proof.
  unfold reader_advance. destruct (n <=? Z.of_nat (length rdr)); [|discriminate].
  intros [= <-]. rewrite length_drop. lia.
Qed.

Section Bounds.
Context `{K : Kinds} `{U : PyUnicode}.

Lemma read_element_shorter rdr e rdr' :
  read_element rdr = Ok (e, rdr') -> (length rdr' < length rdr)%nat.
Proof.
  unfold read_element. destruct rdr as [|ch rdr]; [discriminate|].
  cbn [reader_getchar bind length]. unfold read_int, read_uuid.
  repeat match goal with
  | |- context [if ?c then _ else _] => destruct c
  end; intros H; try discriminate H;
  try (apply bind_ok in H; destruct H as ([v r] & H1 & H2);
       first [apply read_plain_int_shorter in H1 | apply read_str_shorter in H1];
       try destruct (PyUnicode_DecodeUTF8 v); try discriminate H2);
  first [injection H as <- <- | injection H2 as <- <-];
  rewrite ?length_drop; lia.
Qed.

Lemma skip_element_shorter rdr eof rdr' eof' :
  skip_element rdr eof = Ok (rdr', eof') ->
  (length rdr' < length rdr)%nat /\ (rdr' = [] -> eof' = true).
Proof.
  assert (Hfin : forall (r r' : reader) e e' n,
            (length r <= n)%nat ->
            Ok (r, e || reader_at_end r) = Ok (r', e') ->
            (length r' < S n)%nat /\ (r' = [] -> e' = true)).
  { intros r r' e e' n Hn [= <- <-]. split; [lia|]. intros ->. apply orb_true_r. }
  assert (Hadv : forall (r r' : reader) e e' n k,
            (length r <= n)%nat ->
            (let* r1 := reader_advance r k in Ok (r1, e || reader_at_end r1))
            = Ok (r', e') ->
            (length r' < S n)%nat /\ (r' = [] -> e' = true)).
  { intros r r' e e' n k Hn H. apply bind_ok in H. destruct H as (r1 & H1 & H2).
    apply reader_advance_shorter in H1. apply (Hfin r1 r' e e' n); [lia|exact H2]. }
  assert (Hint : forall (r r' : reader) e' xor,
            (let* (b, r0) := reader_getchar r in
             let ch := Z.lxor xor b in
             if (ch <=? 248) && (ch >? 240) then
               let* r1 := reader_advance r0 1 in Ok (r1, eof || reader_at_end r1)
             else if ch >=? 249 then
               let* r1 := reader_advance r0 (8 - (255 - ch)) in
               Ok (r1, eof || reader_at_end r1)
             else Ok (r0, eof || reader_at_end r0)) = Ok (r', e') ->
            (length r' < S (length r))%nat /\ (r' = [] -> e' = true)).
  { intros r r' e' xor. destruct r as [|b r]; [discriminate|].
    cbn [reader_getchar bind length]. cbv zeta.
    destruct ((Z.lxor xor b <=? 248) && (Z.lxor xor b >? 240)).
    - intros H. apply Hadv with (n := S (length r)) in H; [exact H|lia].
    - destruct (Z.lxor xor b >=? 249).
      + intros H. apply Hadv with (n := S (length r)) in H; [exact H|lia].
      + intros H. apply Hfin with (n := S (length r)) in H; [exact H|lia]. }
  unfold skip_element. destruct rdr as [|ch rdr]; [discriminate|].
  cbn [reader_getchar bind length].
  repeat match goal with
  | |- context [if (?a =? ?b) || (?c =? ?d) then _ else _] =>
      destruct ((a =? b) || (c =? d))
  | |- context [if ?a =? ?b then _ else _] => destruct (a =? b)
  end; intros H; try discriminate H.
  - apply (Hfin _ _ _ _ (length rdr)) in H; [exact H|lia].
  - apply Hint in H. exact H.
  - apply Hint in H. exact H.
  - apply (Hfin _ _ _ _ (length rdr)) in H; [exact H|apply skip_high_shorter].
  - apply (Hadv _ _ _ _ (length rdr)) in H; [exact H|lia].
  - apply (Hfin _ _ _ _ (length rdr)) in H; [exact H|lia].
Qed.

Lemma unpack_loop_shorter fuel : forall rdr tup t rdr',
  unpack_loop fuel rdr tup = Ok (t, rdr') ->
  (length rdr' <= length rdr)%nat /\ (rdr <> [] -> (length rdr' < length rdr)%nat).
Proof.
  induction fuel as [|fuel IH]; intros rdr tup t rdr';
    (destruct rdr as [|ch rdr];
     [intros [= <- <-]; split; [lia|congruence]|]);
    cbn [unpack_loop]; (destruct (ch =? KIND_SEP);
     [intros [= <- <-]; cbn [length]; split; lia|]).
  - discriminate.
  - intros H. apply bind_ok in H. destruct H as ([e r1] & He & Hu).
    apply read_element_shorter in He. apply IH in Hu. cbn [length] in *. lia.
Qed.

(** More rounds than the reader has bytes change nothing. *)
Lemma unpack_loop_fuel fuel : forall fuel' rdr tup,
  (length rdr <= fuel)%nat -> (length rdr <= fuel')%nat ->
  unpack_loop fuel rdr tup = unpack_loop fuel' rdr tup.
Proof.
  induction fuel as [|fuel IH]; intros fuel' rdr tup Hf Hf'.
  - destruct rdr; [|cbn in Hf; lia]. destruct fuel'; reflexivity.
  - destruct rdr as [|ch rdr]; [destruct fuel'; reflexivity|].
    destruct fuel' as [|fuel']; [cbn in Hf'; lia|].
    cbn [unpack_loop]. destruct (ch =? KIND_SEP); [reflexivity|].
    destruct (read_element (ch :: rdr)) as [[e r1]|err] eqn:He; [|reflexivity].
    cbn [bind]. apply read_element_shorter in He. cbn [length] in *.
    apply IH; lia.
Qed.

Lemma unpacks_loop_fuel fuel : forall fuel' rdr tups,
  (length rdr <= fuel)%nat -> (length rdr <= fuel')%nat ->
  unpacks_loop fuel rdr tups = unpacks_loop fuel' rdr tups.
Proof.
  induction fuel as [|fuel IH]; intros fuel' rdr tups Hf Hf'.
  - destruct rdr; [|cbn in Hf; lia]. destruct fuel'; reflexivity.
  - destruct rdr as [|ch rdr]; [destruct fuel'; reflexivity|].
    destruct fuel' as [|fuel']; [cbn in Hf'; lia|].
    cbn [unpacks_loop].
    destruct (unpack (ch :: rdr)) as [[t r1]|err] eqn:Hu; [|reflexivity].
    cbn [bind]. unfold unpack in Hu. apply unpack_loop_shorter in Hu.
    destruct Hu as [_ Hu]. specialize (Hu ltac:(discriminate)).
    cbn [length] in *. apply IH; lia.
Qed.

Lemma key_length_loop_fuel fuel : forall fuel' rdr eof len,
  (length rdr <= fuel)%nat -> (length rdr <= fuel')%nat ->
  (rdr = [] -> eof = true) ->
  key_length_loop fuel rdr eof len = key_length_loop fuel' rdr eof len.
Proof.
  induction fuel as [|fuel IH]; intros fuel' rdr eof len Hf Hf' He.
  - destruct rdr; [|cbn in Hf; lia]. rewrite He by reflexivity.
    destruct fuel'; reflexivity.
  - destruct eof; [destruct fuel'; reflexivity|].
    destruct rdr as [|ch rdr]; [discriminate He; reflexivity|].
    destruct fuel' as [|fuel']; [cbn in Hf'; lia|].
    cbn [key_length_loop].
    destruct (skip_element (ch :: rdr) false) as [[r1 e1]|err] eqn:Hs; [|reflexivity].
    cbn [bind]. apply skip_element_shorter in Hs. destruct Hs as [Hlen Hend].
    cbn [length] in *. apply IH; auto; lia.
Qed.

Lemma key_item_loop_fuel fuel : forall fuel' i rdr eof,
  (length rdr <= fuel)%nat -> (length rdr <= fuel')%nat ->
  (rdr = [] -> eof = true) ->
  key_item_loop fuel i rdr eof = key_item_loop fuel' i rdr eof.
Proof.
  induction fuel as [|fuel IH]; intros fuel' i rdr eof Hf Hf' He.
  - destruct rdr; [|cbn in Hf; lia]. rewrite He by reflexivity.
    destruct fuel'; cbn [key_item_loop]; rewrite andb_false_r; reflexivity.
  - destruct eof;
      [destruct fuel'; cbn [key_item_loop]; rewrite andb_false_r; reflexivity|].
    destruct rdr as [|ch rdr]; [discriminate He; reflexivity|].
    destruct fuel' as [|fuel']; [cbn in Hf'; lia|].
    cbn [key_item_loop]. destruct (negb (i =? 0) && negb false); [|reflexivity].
    destruct (skip_element (ch :: rdr) false) as [[r1 e1]|err] eqn:Hs; [|reflexivity].
    cbn [bind]. apply skip_element_shorter in Hs. destruct Hs as [Hlen Hend].
    cbn [length] in *. apply IH; auto; lia.
Qed.

Lemma iterate_fuel fuel : forall fuel' it acc,
  (length (key_bytes (iter_key it)) - iter_pos it <= fuel)%nat ->
  (length (key_bytes (iter_key it)) - iter_pos it <= fuel')%nat ->
  iterate fuel it acc = iterate fuel' it acc.
Proof.
  induction fuel as [|fuel IH]; intros fuel' [k pos] acc Hf Hf';
    cbn [iter_key iter_pos] in *.
  - assert (Hnext : keyiter_next (mkKeyIter k pos) = (None, mkKeyIter k pos)).
    { unfold keyiter_next. cbn [iter_key iter_pos].
      destruct (Nat.leb_spec (length (key_bytes k)) pos); [reflexivity|lia]. }
    destruct fuel'; cbn [iterate]; rewrite Hnext; reflexivity.
  - destruct fuel' as [|fuel'].
    { assert (Hnext : keyiter_next (mkKeyIter k pos) = (None, mkKeyIter k pos)).
      { unfold keyiter_next. cbn [iter_key iter_pos].
        destruct (Nat.leb_spec (length (key_bytes k)) pos); [reflexivity|lia]. }
      cbn [iterate]. rewrite Hnext. reflexivity. }
    cbn [iterate]. unfold keyiter_next. cbn [iter_key iter_pos].
    destruct (Nat.leb_spec (length (key_bytes k)) pos); [reflexivity|].
    destruct (read_element (drop pos (key_bytes k))) as [[e r1]|err] eqn:He;
      [|destruct err; reflexivity].
    apply read_element_shorter in He. rewrite length_drop in He.
    apply IH; cbn [iter_key iter_pos]; lia.
Qed.

End Bounds.

(** ** Writing behind what is already written *)

Section WriterFacts.
Context `{K : Kinds} `{U : PyUnicode}.








End WriterFacts.

(** ** The comparison of byte strings is a total order *)

Lemma bytes_compare_eq a b : bytes_compare a b = 0 <-> a = b.
Proof.
  split.
  - destruct (bytes_compare_sign a b) as [H|[[_ ->]|H]]; [rewrite H| |rewrite H];
      try discriminate; reflexivity.
  - intros ->. apply bytes_compare_refl.
Qed.

Lemma bytes_compare_trans a : forall b c,
  bytes_compare a b = -1 -> bytes_compare b c = -1 -> bytes_compare a c = -1.
Proof.
  induction a as [|x a IH]; intros [|y b] [|z c]; try discriminate; try reflexivity.
  rewrite !bytes_compare_cons.
  destruct (Z.ltb_spec x y), (Z.ltb_spec y z), (Z.ltb_spec x z);
    try reflexivity; try lia;
    destruct (Z.ltb_spec y x), (Z.ltb_spec z y), (Z.ltb_spec z x);
    try discriminate; try lia; try reflexivity.
  apply IH.
Qed.

Section CompareFacts.
Context `{K : Kinds} `{U : PyUnicode}.
Hypothesis Hkinds : kinds_ok = true.



End CompareFacts.

(** ** [py_decode_offsets] *)

Lemma to_int_small z : - 2 ^ 31 <= z < 2 ^ 31 -> to_int z = z.
Proof. intros H. unfold to_int. rewrite Z.mod_small by lia. lia. Qed.

Lemma to_long_small z : - 2 ^ 63 <= z < 2 ^ 63 -> to_long z = z.
Proof. intros H. unfold to_long. rewrite Z.mod_small by lia. lia. Qed.

Lemma to_long_range z : - 2 ^ 63 <= to_long z < 2 ^ 63.
Proof.
  unfold to_long. pose proof (Z.mod_pos_bound (z + 2 ^ 63) (2 ^ 64) ltac:(lia)). lia.
Qed.

Lemma read_plain_int_pack_int v rest :
  0 <= v < 2 ^ 64 ->
  read_plain_int (py_pack_int [] v ++ rest) 0 = Ok (v, rest).
Proof.
  intros Hv. unfold py_pack_int, writer_puts. cbn [app].
  rewrite write_int_plain by exact Hv.
  rewrite <- (read_plain_int_varint v 0 rest Hv ltac:(lia)). f_equal. f_equal.
  rewrite <- (map_id (varint_bytes v)) at 1. apply map_ext.
  intros x. symmetry. apply Z.lxor_0_l.
Qed.

Lemma decode_offsets_loop_deltas ds : forall i pos done rest,
  Forall (fun d => 0 <= d) ds -> 0 <= pos -> pos + sum_list ds < 2 ^ 63 ->
  1 + i = Z.of_nat (length done) ->
  decode_offsets_loop (length ds) i
    (concat (map (py_pack_int []) ds) ++ rest) pos
    (done ++ replicate (length ds) None)
  = Ok (done ++ map Some (offsets_from pos ds), rest).
Proof.
  induction ds as [|d ds IH]; intros i pos done rest Hds Hpos Hsum Hi.
  - reflexivity.
  - inversion Hds as [|? ? Hd Hds']; subst.
    assert (Hs : 0 <= sum_list ds).
    { clear - Hds'. induction Hds'; cbn; [lia|]. unfold sum_list in *. cbn. lia. }
    unfold sum_list in Hsum. cbn [fold_right] in Hsum. fold (sum_list ds) in Hsum.
    cbn [length map concat decode_offsets_loop replicate offsets_from].
    rewrite <- app_assoc.
    rewrite read_plain_int_pack_int by lia. cbn [bind].
    unfold u64. rewrite Z.mod_small by lia. rewrite to_long_small by lia.
    unfold PyList_SET_ITEM.
    destruct (Z.leb_spec 0 (1 + i)); [|lia].
    destruct (Z.ltb_spec (1 + i) (Z.of_nat (length (done ++ None :: replicate (length ds) None))));
      [|rewrite length_app in *; cbn [length] in *; lia].
    cbn [andb bind].
    replace (Z.to_nat (1 + i)) with (length done + 0)%nat by lia.
    rewrite insert_app_r. cbn [list_insert insert].
    change (done ++ Some (pos + d) :: replicate (length ds) None)
      with (done ++ [Some (pos + d)] ++ replicate (length ds) None).
    rewrite app_assoc.
    rewrite (IH (i + 1) (pos + d) (done ++ [Some (pos + d)]) rest); auto; try lia.
    + rewrite <- app_assoc. reflexivity.
    + rewrite length_app. cbn [length]. lia.
Qed.

(** ** The XOR mask *)

Lemma lxor_255_check : forall_byte (fun x => Z.lxor 255 x =? 255 - x) = true.
Proof. vm_compute. reflexivity. Qed.

Lemma lxor_255 x : 0 <= x < 256 -> Z.lxor 255 x = 255 - x.
Proof.
  intros Hx. apply Z.eqb_eq. exact (forall_byte_spec _ lxor_255_check x Hx).
Qed.

Lemma be_bytes_wf n v : wf_bytes (be_bytes n v).
Proof.
  induction n as [|n IH]; cbn [be_bytes]; constructor; [apply u8_range|exact IH].
Qed.

Lemma be_bytes_length n v : length (be_bytes n v) = n.
Proof. induction n as [|n IH]; cbn [be_bytes length]; [reflexivity|]. rewrite IH. reflexivity. Qed.

Lemma varint_bytes_wf v : 0 <= v < 2 ^ 64 -> wf_bytes (varint_bytes v).
Proof.
  intros Hv. unfold varint_bytes.
  pose proof (Z.div_mod (v - 240) 256 ltac:(lia)).
  pose proof (Z.mod_pos_bound (v - 240) 256 ltac:(lia)).
  pose proof (Z.div_mod (v - 2288) 256 ltac:(lia)).
  pose proof (Z.mod_pos_bound (v - 2288) 256 ltac:(lia)).
  repeat match goal with
  | |- context [?x <=? ?y] => destruct (Z.leb_spec x y)
  end;
  repeat first [ apply be_bytes_wf | constructor | lia ].
Qed.

(** Complementing every byte reverses the order of two strings of the same
    length, and of two strings that differ in their first byte. *)
Lemma bytes_compare_complement x : forall y,
  wf_bytes x -> wf_bytes y ->
  length x = length y \/
    match x, y with a :: _, b :: _ => a <> b | _, _ => False end ->
  bytes_compare (map (Z.lxor 255) x) (map (Z.lxor 255) y) = - bytes_compare x y.
Proof.
  induction x as [|a x IH]; intros [|b y] Hx Hy Hsh;
    try (destruct Hsh as [Hsh|[]]; cbn in Hsh; lia); try reflexivity.
  inversion Hx as [|? ? Ha Hx']; inversion Hy as [|? ? Hb Hy']; subst.
  cbn [map]. rewrite !bytes_compare_cons, !lxor_255 by assumption.
  destruct (Z.ltb_spec a b), (Z.ltb_spec b a),
           (Z.ltb_spec (255 - a) (255 - b)), (Z.ltb_spec (255 - b) (255 - a));
    try reflexivity; try lia.
  assert (a = b) by lia. subst b.
  apply IH; auto. left. destruct Hsh as [Hsh|Hsh]; [cbn [length] in Hsh; lia|congruence].
Qed.

Lemma varint_bytes_same_shape a b :
  0 <= a < 2 ^ 64 -> 0 <= b < 2 ^ 64 ->
  length (varint_bytes a) = length (varint_bytes b) \/
  match varint_bytes a, varint_bytes b with
  | x :: _, y :: _ => x <> y
  | _, _ => False
  end.
Proof.
  intros Ha Hb.
  destruct (varint_bytes_shape a Ha) as (ca & ta & -> & Hca & Hsa).
  destruct (varint_bytes_shape b Hb) as (cb & tb & -> & Hcb & Hsb).
  destruct (Z.eq_dec ca cb) as [->|Hne]; [left|right; exact Hne].
  cbn [length]. f_equal.
  destruct Hsa as [[? ->]|[[? ?]|[? ?]]], Hsb as [[? ->]|[[? ?]|[? ?]]];
    cbn [length] in *; lia.
Qed.

Lemma varint_bytes_order_xor a b :
  0 <= a < 2 ^ 64 -> 0 <= b < 2 ^ 64 ->
  (bytes_compare (map (Z.lxor 255) (varint_bytes a))
                 (map (Z.lxor 255) (varint_bytes b)) < 0 <-> b < a).
Proof.
  intros Ha Hb.
  rewrite bytes_compare_complement
    by auto using varint_bytes_wf, varint_bytes_same_shape.
  rewrite <- bytes_compare_antisym. apply varint_bytes_order; assumption.
Qed.

(** ** Sizes *)

Lemma varint_bytes_length v :
  0 <= v < 2 ^ 64 -> (1 <= length (varint_bytes v) <= 9)%nat.
Proof.
  intros Hv. destruct (varint_bytes_shape v Hv) as (c & tl & -> & Hc & Hs).
  cbn [length]. destruct Hs as [[? ->]|[[? ?]|[? ?]]]; cbn [length] in *; lia.
Qed.

Lemma varint_bytes_length_mono a b :
  0 <= a <= b -> b < 2 ^ 64 ->
  (length (varint_bytes a) <= length (varint_bytes b))%nat.
Proof.
  intros Hab Hb. unfold varint_bytes.
  repeat match goal with
  | |- context [?x <=? ?y] => destruct (Z.leb_spec x y); try lia
  end; cbn [length]; rewrite ?be_bytes_length; lia.
Qed.

Lemma write_str_loop_length p : forall s t,
  1 <= s <= 7 ->
  Z.of_nat (length (write_str_loop [] p s t))
  = Z.of_nat (length p) + (Z.of_nat (length p) + s + 5) / 7.
Proof.
  induction p as [|o p IH]; intros s t Hs.
  - cbn [write_str_loop length]. unfold writer_putchar.
    destruct (Z.gtb_spec s 1).
    + cbn [app length]. replace (Z.of_nat 0 + s + 5) with (s - 2 + 1 * 7) by lia.
      rewrite Z.div_add by lia. rewrite Z.div_small by lia. lia.
    + assert (s = 1) by lia. subst s. reflexivity.
  - rewrite write_str_loop_cons. cbn [length]. destruct (Z.ltb_spec s 7).
    + rewrite !Nat2Z.inj_succ, IH by lia.
      replace (Z.of_nat (length p) + (s + 1) + 5)
        with (Z.succ (Z.of_nat (length p)) + s + 5) by lia.
      lia.
    + assert (s = 7) by lia. subst s. cbn [length].
      rewrite !Nat2Z.inj_succ, IH by lia.
      replace (Z.succ (Z.of_nat (length p)) + 7 + 5)
        with (Z.of_nat (length p) + 1 + 5 + 1 * 7) by lia.
      rewrite Z.div_add by lia. lia.
Qed.

(** ** Order of the Keys of tuples *)



Section OrderFacts.
Context `{K : Kinds} `{U : PyUnicode}.
Hypothesis Hkinds : kinds_ok = true.



(** The smaller integer has the lower encoding. *)
Lemma int_payload_lt u v ku pu kv pv :
  KIND_NEG_INTEGER < KIND_INTEGER -> u < v ->
  payload (EInt u) = Some (ku, pu) -> payload (EInt v) = Some (kv, pv) ->
  bytes_compare (ku :: pu) (kv :: pv) = -1.
Proof.
  cbn [payload]. intros Hord Huv Hpu Hpv.
  destruct (fits_int64 u) eqn:Hfu; [|discriminate].
  destruct (fits_int64 v) eqn:Hfv; [|discriminate].
  unfold fits_int64 in Hfu, Hfv. split_hyps.
  rewrite bytes_compare_cons.
  destruct (Z.ltb_spec u 0), (Z.ltb_spec v 0);
    injection Hpu as <- <-; injection Hpv as <- <-; try lia.
  - rewrite Z.ltb_irrefl. apply bytes_compare_lt_iff.
    apply varint_bytes_order_xor; lia.
  - destruct (Z.ltb_spec KIND_NEG_INTEGER KIND_INTEGER); [reflexivity|lia].
  - rewrite Z.ltb_irrefl.
    rewrite !(map_ext (Z.lxor 0) id), !map_id by (intros; apply Z.lxor_0_l).
    apply varint_bytes_lt; lia.
Qed.


End OrderFacts.

(** ** Skipping and reading on any bytes *)

Lemma skip_high_suffix rdr : exists c, rdr = c ++ skip_high rdr.
Proof.
  induction rdr as [|b rdr [c IH]]; cbn [skip_high]; [exists []; reflexivity|].
  destruct (Z.land 128 b =? 0); [exists []; reflexivity|].
  exists (b :: c). cbn [app]. rewrite <- IH. reflexivity.
Qed.

(** [read_str] stops where [skip_element] stops on a string. *)
Lemma read_str_loop_rest n : forall rdr lb shift wtr,
  (length rdr <= n)%nat -> wf_bytes rdr ->
  snd (read_str_loop rdr lb shift wtr) = skip_high rdr.
Proof.
  induction n as [|n IH]; intros rdr lb shift wtr Hn Hwf.
  - destruct rdr; [reflexivity|cbn in Hn; lia].
  - destruct rdr as [|cb rdr]; [reflexivity|].
    inversion Hwf as [|? ? Hcb Hwf']; subst.
    cbn [read_str_loop skip_high]. rewrite land_128_zero by exact Hcb.
    destruct (cb <? 128); [reflexivity|].
    cbn [length] in Hn.
    destruct (shift <? 7); [apply IH; [lia|exact Hwf']|].
    destruct rdr as [|lb' rdr]; [reflexivity|].
    inversion Hwf' as [|? ? Hlb Hwf'']; subst.
    cbn [skip_high]. rewrite land_128_zero by exact Hlb.
    destruct (lb' <? 128); [reflexivity|].
    apply IH; [cbn [length] in Hn; lia|exact Hwf''].
Qed.

Lemma read_str_rest rdr s rdr' :
  wf_bytes rdr -> read_str rdr = Ok (s, rdr') -> rdr' = skip_high rdr.
Proof.
  intros Hwf. unfold read_str. destruct rdr as [|lb rdr]; [intros [= _ <-]; reflexivity|].
  inversion Hwf as [|? ? Hlb Hwf']; subst.
  cbn [skip_high]. rewrite land_128_zero by exact Hlb.
  destruct (lb <? 128); [intros [= _ <-]; reflexivity|].
  intros [= H]. rewrite <- (read_str_loop_rest (length rdr) rdr lb 1 []); auto.
  rewrite H. reflexivity.
Qed.

Lemma read_shifted_rest r xor v k v' r' :
  read_shifted r xor v k = Ok (v', r') -> r' = drop 1 r.
Proof.
  unfold read_shifted. destruct r as [|c r]; [discriminate|].
  cbn [reader_getchar bind]. intros [= _ <-]. reflexivity.
Qed.

(** What [read_plain_int] leaves: the bytes after the first one and the
    [varint_more] that belong to it. *)
Lemma read_plain_int_rest rdr xor v rdr' :
  read_plain_int rdr xor = Ok (v, rdr') ->
  exists b tl, rdr = b :: tl /\
    (Z.lxor b xor < 256 ->
     varint_more (Z.lxor b xor) <= Z.of_nat (length tl) /\
     rdr' = drop (Z.to_nat (varint_more (Z.lxor b xor))) tl).
Proof.
  unfold read_plain_int. destruct rdr as [|b tl]; [discriminate|].
  cbn [reader_getc]. cbv zeta. intros H. exists b, tl. split; [reflexivity|].
  intros Hch. revert H. unfold varint_more.
  generalize dependent (Z.lxor b xor). intros ch Hch.
  assert (Hopt : forall (c : bool) k v0 (r0 : reader) v1 r1,
            (if c then read_shifted r0 xor v0 k else Ok (v0, r0)) = Ok (v1, r1) ->
            r1 = drop (if c then 1 else 0) r0).
  { intros c k v0 r0 v1 r1. destruct c.
    - apply read_shifted_rest.
    - intros [= _ <-]. reflexivity. }
  destruct (Z.leb_spec ch 240).
  { intros [= _ <-]. split; [lia|reflexivity]. }
  destruct (Z.leb_spec ch 248).
  { unfold reader_ensure. destruct (Z.leb_spec 1 (Z.of_nat (length tl))); [|discriminate].
    destruct tl as [|c tl]; [cbn [length] in *; lia|].
    cbn [reader_getchar bind]. intros [= _ <-]. split; [lia|reflexivity]. }
  destruct (Z.eqb_spec ch 249) as [->|Hne].
  { unfold reader_ensure. destruct (Z.leb_spec 2 (Z.of_nat (length tl))); [|discriminate].
    destruct tl as [|c1 [|c2 tl]]; try (cbn [length] in *; lia).
    cbn [reader_getchar bind]. intros [= _ <-]. split; [cbn [length]; lia|reflexivity]. }
  destruct (reader_ensure tl (8 - (255 - ch))) eqn:He; [|discriminate].
  unfold reader_ensure in He. apply Z.leb_le in He. intros Hread.
  split; [lia|].
  repeat match type of Hread with
  | bind _ _ = Ok _ =>
      let E := fresh "E" in
      apply bind_ok in Hread; destruct Hread as ([? ?] & E & Hread);
      first [apply Hopt in E | apply read_shifted_rest in E]
  end.
  injection Hread as _ <-. subst.
  assert (Hc : ch = 250 \/ ch = 251 \/ ch = 252 \/ ch = 253 \/ ch = 254 \/ ch = 255)
    by lia.
  destruct Hc as [-> | [-> | [-> | [-> | [-> | ->]]]]];
    cbn [Z.geb Z.compare Pos.compare Pos.compare_cont]; rewrite ?drop_0, ?drop_drop;
    reflexivity.
Qed.

Lemma read_plain_int_suffix rdr xor v rdr' :
  wf_bytes rdr -> xor = 0 \/ xor = 255 ->
  read_plain_int rdr xor = Ok (v, rdr') -> exists c, rdr = c ++ rdr'.
Proof.
  intros Hwf Hx H.
  destruct (read_plain_int_rest _ _ _ _ H) as (b & tl & -> & Hrest).
  inversion Hwf as [|? ? Hb Hwf']; subst.
  assert (Hch : Z.lxor b xor < 256).
  { destruct Hx as [->| ->]; [rewrite Z.lxor_0_r; lia|].
    rewrite Z.lxor_comm, lxor_255 by exact Hb. lia. }
  destruct (Hrest Hch) as [_ ->].
  exists (b :: take (Z.to_nat (varint_more (Z.lxor b xor))) tl).
  cbn [app]. rewrite take_drop. reflexivity.
Qed.

Section ReadFacts.
Context `{K : Kinds} `{U : PyUnicode}.
Hypothesis Hkinds : kinds_ok = true.

(** [skip_element] on an integer behind its kind byte follows
    [read_plain_int]. *)
Lemma skip_int_rest (rdr : reader) (xor v : Z) (rdr' : reader) (eof : bool) :
  wf_bytes rdr -> xor = 0 \/ xor = 255 ->
  read_plain_int rdr xor = Ok (v, rdr') ->
  (let* (b, rdr) := reader_getchar rdr in
   let ch := Z.lxor xor b in
   if (ch <=? 248) && (ch >? 240) then
     let* rdr := reader_advance rdr 1 in Ok (rdr, eof || reader_at_end rdr)
   else if ch >=? 249 then
     let* rdr := reader_advance rdr (8 - (255 - ch)) in
     Ok (rdr, eof || reader_at_end rdr)
   else Ok (rdr, eof || reader_at_end rdr))
  = Ok (rdr', eof || reader_at_end rdr').
Proof.
  intros Hwf Hx H.
  destruct (read_plain_int_rest _ _ _ _ H) as (b & tl & -> & Hrest).
  inversion Hwf as [|? ? Hb Hwf']; subst.
  assert (Hch : 0 <= Z.lxor b xor < 256).
  { destruct Hx as [->| ->]; [rewrite Z.lxor_0_r; lia|].
    rewrite Z.lxor_comm, lxor_255 by exact Hb. lia. }
  destruct (Hrest ltac:(lia)) as [Hlen ->]. clear Hrest H.
  cbn [reader_getchar bind]. cbv zeta. rewrite (Z.lxor_comm xor b).
  revert Hlen Hch. unfold varint_more. generalize (Z.lxor b xor). intros ch Hlen Hch.
  rewrite Z.geb_leb. unfold reader_advance.
  destruct (Z.leb_spec ch 240).
  - destruct (Z.leb_spec ch 248); [|lia]. destruct (Z.gtb_spec ch 240); [lia|].
    destruct (Z.leb_spec 249 ch); [lia|]. reflexivity.
  - destruct (Z.leb_spec ch 248).
    + destruct (Z.gtb_spec ch 240); [|lia]. cbn [andb].
      destruct (Z.leb_spec 1 (Z.of_nat (length tl))); [|lia]. reflexivity.
    + cbn [andb]. destruct (Z.leb_spec 249 ch); [|lia].
      destruct (Z.leb_spec (8 - (255 - ch)) (Z.of_nat (length tl))); [|lia].
      replace (8 - (255 - ch)) with (ch - 247) by lia. reflexivity.
Qed.

(** Where [read_element] reads an element that is not a boolean,
    [skip_element] skips to the same place. *)
Lemma skip_element_read rdr e rdr' eof :
  wf_bytes rdr -> read_element rdr = Ok (e, rdr') -> no_bool e ->
  skip_element rdr eof = Ok (rdr', eof || reader_at_end rdr').
Proof using Hkinds.
  intros Hwf Hread Hnb. kinds_intro Hkinds.
  destruct rdr as [|ch rdr]; [discriminate|].
  inversion Hwf as [|? ? Hch Hwf']; subst.
  unfold read_element in Hread. unfold skip_element.
  cbn [reader_getchar bind] in Hread |- *.
  destruct (Z.eqb_spec ch KIND_NULL) as [->|N1].
  { injection Hread as <- <-. kind_eqb. reflexivity. }
  destruct (Z.eqb_spec ch KIND_INTEGER) as [->|N2].
  { unfold read_int in Hread. apply bind_ok in Hread. destruct Hread as ([v r] & Hr1 & Hr2).
    injection Hr2 as <- <-. kind_eqb.
    apply (skip_int_rest rdr 0 v r eof Hwf' (or_introl eq_refl) Hr1). }
  destruct (Z.eqb_spec ch KIND_NEG_INTEGER) as [->|N3].
  { unfold read_int in Hread. apply bind_ok in Hread. destruct Hread as ([v r] & Hr1 & Hr2).
    injection Hr2 as <- <-. kind_eqb.
    apply (skip_int_rest rdr 255 v r eof Hwf' (or_intror eq_refl) Hr1). }
  destruct (Z.eqb_spec ch KIND_BOOL) as [->|N4].
  { apply bind_ok in Hread. destruct Hread as ([v r] & Hr1 & Hr2).
    injection Hr2 as <- <-. contradiction. }
  destruct (Z.eqb_spec ch KIND_BLOB) as [->|N5].
  { apply bind_ok in Hread. destruct Hread as ([s r] & Hr1 & Hr2).
    injection Hr2 as <- <-. kind_eqb.
    rewrite (read_str_rest _ _ _ Hwf' Hr1). reflexivity. }
  destruct (Z.eqb_spec ch KIND_TEXT) as [->|N6].
  { apply bind_ok in Hread. destruct Hread as ([s r] & Hr1 & Hr2).
    destruct (PyUnicode_DecodeUTF8 s); [|discriminate].
    injection Hr2 as <- <-. kind_eqb.
    rewrite (read_str_rest _ _ _ Hwf' Hr1). reflexivity. }
  destruct ((ch =? KIND_NEG_TIME) || (ch =? KIND_TIME)); [discriminate|].
  destruct (Z.eqb_spec ch KIND_UUID) as [->|N7]; [|discriminate].
  unfold read_uuid in Hread. destruct (reader_ensure rdr 16) eqn:He; [|discriminate].
  injection Hread as <- <-. kind_eqb. unfold reader_advance.
  unfold reader_ensure in He. rewrite He. reflexivity.
Qed.

(** What [read_element] leaves is the end of what it was given. *)
Lemma read_element_suffix rdr e rdr' :
  wf_bytes rdr -> read_element rdr = Ok (e, rdr') -> exists c, rdr = c ++ rdr'.
Proof.
  intros Hwf H.
  destruct rdr as [|ch rdr]; [discriminate|].
  inversion Hwf as [|? ? Hch Hwf']; subst.
  unfold read_element in H. cbn [reader_getchar bind] in H.
  assert (Hcons : forall r, (exists c, rdr = c ++ r) -> exists c, ch :: rdr = c ++ r).
  { intros r [c ->]. exists (ch :: c). reflexivity. }
  apply Hcons.
  assert (Hstr : forall s r, read_str rdr = Ok (s, r) -> exists c, rdr = c ++ r).
  { intros s r Hs. rewrite (read_str_rest _ _ _ Hwf' Hs). apply skip_high_suffix. }
  destruct (ch =? KIND_NULL).
  { injection H as _ <-. exists []. reflexivity. }
  destruct (ch =? KIND_INTEGER).
  { unfold read_int in H. apply bind_ok in H. destruct H as ([v r] & Hr1 & Hr2).
    injection Hr2 as _ <-.
    exact (read_plain_int_suffix rdr 0 v r Hwf' (or_introl eq_refl) Hr1). }
  destruct (ch =? KIND_NEG_INTEGER).
  { unfold read_int in H. apply bind_ok in H. destruct H as ([v r] & Hr1 & Hr2).
    injection Hr2 as _ <-.
    exact (read_plain_int_suffix rdr 255 v r Hwf' (or_intror eq_refl) Hr1). }
  destruct (ch =? KIND_BOOL).
  { apply bind_ok in H. destruct H as ([v r] & Hr1 & Hr2).
    injection Hr2 as _ <-.
    exact (read_plain_int_suffix rdr 0 v r Hwf' (or_introl eq_refl) Hr1). }
  destruct (ch =? KIND_BLOB).
  { apply bind_ok in H. destruct H as ([s r] & Hr1 & Hr2).
    injection Hr2 as _ <-. eapply Hstr; eauto. }
  destruct (ch =? KIND_TEXT).
  { apply bind_ok in H. destruct H as ([s r] & Hr1 & Hr2).
    destruct (PyUnicode_DecodeUTF8 s); [|discriminate].
    injection Hr2 as _ <-. eapply Hstr; eauto. }
  destruct ((ch =? KIND_NEG_TIME) || (ch =? KIND_TIME)); [discriminate|].
  destruct (ch =? KIND_UUID); [|discriminate].
  unfold read_uuid in H. destruct (reader_ensure rdr 16); [|discriminate].
  injection H as _ <-. exists (take 16 rdr). rewrite take_drop. reflexivity.
Qed.

End ReadFacts.

(** ** What [read_element] leaves are bytes *)

Section ReadWf.
Context `{K : Kinds} `{U : PyUnicode}.

Lemma read_element_wf rdr e rdr' :
  wf_bytes rdr -> read_element rdr = Ok (e, rdr') -> wf_bytes rdr'.
Proof.
  intros Hwf H. destruct (read_element_suffix rdr e rdr' Hwf H) as [c ->].
  apply Forall_app in Hwf. apply Hwf.
Qed.

End ReadWf.

(** ** Decoding stays inside the buffer *)

Lemma in_bounds_ok {A} (a : A) : in_bounds (Ok a).
Proof. split; discriminate. Qed.

Lemma in_bounds_bind {A B} (m : result A) (k : A -> result B) :
  in_bounds m -> (forall a, m = Ok a -> in_bounds (k a)) -> in_bounds (bind m k).
Proof.
  intros Hm Hk. destruct m as [a|e]; cbn [bind]; [apply Hk; reflexivity|].
  destruct Hm as [H1 H2]. split; congruence.
Qed.

Lemma read_plain_int_safe rdr xor :
  wf_bytes rdr -> xor = 0 \/ xor = 255 -> in_bounds (read_plain_int rdr xor).
Proof.
  intros Hwf Hx. unfold read_plain_int.
  destruct rdr as [|b tl]; [split; discriminate|].
  inversion Hwf as [|? ? Hb Hwf']; subst.
  cbn [reader_getc]. cbv zeta.
  assert (Hch : 0 <= Z.lxor b xor < 256).
  { destruct Hx as [-> | ->]; [rewrite Z.lxor_0_r; lia|].
    rewrite Z.lxor_comm, lxor_255 by exact Hb. lia. }
  revert Hch. generalize (Z.lxor b xor). intros ch Hch.
  destruct (Z.leb_spec ch 240); [apply in_bounds_ok|].
  destruct (Z.leb_spec ch 248).
  { destruct (reader_ensure tl 1) eqn:He; [|split; discriminate].
    unfold reader_ensure in He. apply Z.leb_le in He.
    destruct tl as [|c tl]; [cbn [length] in He; lia|]. apply in_bounds_ok. }
  destruct (Z.eqb_spec ch 249) as [->|Hne].
  { destruct (reader_ensure tl 2) eqn:He; [|split; discriminate].
    unfold reader_ensure in He. apply Z.leb_le in He.
    destruct tl as [|c1 [|c2 tl]]; try (cbn [length] in He; lia). apply in_bounds_ok. }
  destruct (reader_ensure tl (8 - (255 - ch))) eqn:He; [|split; discriminate].
  unfold reader_ensure in He. apply Z.leb_le in He.
  assert (Hc : ch = 250 \/ ch = 251 \/ ch = 252 \/ ch = 253 \/ ch = 254 \/ ch = 255)
    by lia.
  destruct Hc as [-> | [-> | [-> | [-> | [-> | ->]]]]];
    do 8 (try (destruct tl as [|? tl]; [cbn [length] in He; try lia|]));
    cbn [Z.geb Z.compare Pos.compare Pos.compare_cont
         bind read_shifted reader_getchar];
    apply in_bounds_ok.
Qed.

Lemma read_shifted_nonneg r v k v' r' :
  wf_bytes r -> 0 <= v ->
  read_shifted r 0 v k = Ok (v', r') -> 0 <= v' /\ wf_bytes r'.
Proof.
  intros Hwf Hv. unfold read_shifted. destruct r as [|c r]; [discriminate|].
  inversion Hwf as [|? ? Hc Hwf']; subst.
  cbn [reader_getchar bind]. intros [= <- <-]. split; [|exact Hwf'].
  apply Z.lor_nonneg. split; [exact Hv|].
  apply Z.shiftl_nonneg. rewrite Z.lxor_0_l. lia.
Qed.

(** Without a mask, [read_plain_int] reads a number that is not negative. *)
Lemma read_plain_int_nonneg rdr v rdr' :
  wf_bytes rdr -> read_plain_int rdr 0 = Ok (v, rdr') -> 0 <= v.
Proof.
  intros Hwf. unfold read_plain_int. destruct rdr as [|b tl]; [discriminate|].
  inversion Hwf as [|? ? Hb Hwf']; subst.
  cbn [reader_getc]. cbv zeta. rewrite Z.lxor_0_r.
  assert (Hopt : forall (c : bool) k v0 (r0 : reader) v1 r1,
            wf_bytes r0 -> 0 <= v0 ->
            (if c then read_shifted r0 0 v0 k else Ok (v0, r0)) = Ok (v1, r1) ->
            0 <= v1 /\ wf_bytes r1).
  { intros c k v0 r0 v1 r1 Hr Hv. destruct c.
    - apply read_shifted_nonneg; assumption.
    - intros [= <- <-]. split; assumption. }
  assert (Hget : forall (r0 : reader) c r1,
            wf_bytes r0 -> reader_getchar r0 = Ok (c, r1) -> 0 <= c /\ wf_bytes r1).
  { intros r0 c r1 Hr. destruct r0 as [|c0 r0]; [discriminate|].
    inversion Hr; subst. intros [= <- <-]. split; [lia|assumption]. }
  destruct (Z.leb_spec b 240); [intros [= <- _]; lia|].
  destruct (Z.leb_spec b 248).
  { destruct (reader_ensure tl 1); [|discriminate]. intros Hread.
    apply bind_ok in Hread. destruct Hread as ([c r] & E & Hread).
    apply Hget in E; [|exact Hwf']. destruct E as [Hc _].
    injection Hread as <- _. rewrite Z.lxor_0_l. lia. }
  destruct (Z.eqb_spec b 249) as [->|Hne].
  { destruct (reader_ensure tl 2); [|discriminate]. intros Hread.
    apply bind_ok in Hread. destruct Hread as ([c1 r1] & E1 & Hread).
    apply Hget in E1; [|exact Hwf']. destruct E1 as [Hc1 Hr1].
    apply bind_ok in Hread. destruct Hread as ([c2 r2] & E2 & Hread).
    apply Hget in E2; [|exact Hr1]. destruct E2 as [Hc2 _].
    injection Hread as <- _. rewrite !Z.lxor_0_l. lia. }
  destruct (reader_ensure tl (8 - (255 - b))); [|discriminate]. intros Hread.
  repeat match type of Hread with
  | bind _ _ = Ok _ =>
      let E := fresh "E" in
      apply bind_ok in Hread; destruct Hread as ([? ?] & E & Hread);
      first [apply Hopt in E | apply read_shifted_nonneg in E];
      [destruct E as [? ?]|assumption|first [assumption|lia]]
  end.
  injection Hread as <- _. assumption.
Qed.

Section SafeFacts.
Context `{K : Kinds} `{U : PyUnicode}.

Lemma read_element_safe rdr :
  wf_bytes rdr -> rdr <> [] -> in_bounds (read_element rdr).
Proof.
  intros Hwf Hne. destruct rdr as [|ch rdr]; [congruence|].
  inversion Hwf as [|? ? Hch Hwf']; subst.
  unfold read_element, read_int, read_uuid, read_str. cbn [reader_getchar bind].
  repeat match goal with
  | |- in_bounds (if ?c then _ else _) => destruct c
  | |- in_bounds (Ok _) => apply in_bounds_ok
  | |- in_bounds (Raise _) => split; discriminate
  | |- in_bounds (bind (read_plain_int _ _) _) =>
      apply in_bounds_bind; [apply read_plain_int_safe; auto|intros [? ?] _]
  | |- in_bounds (bind _ _) =>
      apply in_bounds_bind; [|intros [? ?] _]
  | |- in_bounds (match ?m with _ => _ end) => destruct m
  end.
Qed.

Lemma unpack_loop_wf fuel : forall rdr tup t rdr',
  wf_bytes rdr -> unpack_loop fuel rdr tup = Ok (t, rdr') -> wf_bytes rdr'.
Proof.
  induction fuel as [|fuel IH]; intros rdr tup t rdr' Hwf;
    destruct rdr as [|ch rdr]; cbn [unpack_loop].
  all: try (intros [= _ <-]; exact Hwf).
  all: inversion Hwf as [|? ? Hch Hwf']; subst.
  all: destruct (ch =? KIND_SEP); [intros [= _ <-]; exact Hwf'|].
  - discriminate.
  - intros H. apply bind_ok in H. destruct H as ([arg r] & Hread & H).
    apply (IH r (tup ++ [arg]) t rdr'); [|exact H].
    exact (read_element_wf _ _ _ Hwf Hread).
Qed.

Lemma unpack_loop_safe fuel : forall rdr tup,
  wf_bytes rdr -> (length rdr <= fuel)%nat -> in_bounds (unpack_loop fuel rdr tup).
Proof.
  induction fuel as [|fuel IH]; intros rdr tup Hwf Hfuel;
    destruct rdr as [|ch rdr]; cbn [unpack_loop]; try apply in_bounds_ok.
  all: destruct (ch =? KIND_SEP); [apply in_bounds_ok|].
  - cbn [length] in Hfuel. lia.
  - apply in_bounds_bind; [apply read_element_safe; [exact Hwf|discriminate]|].
    intros [arg r] Hread. apply IH.
    + exact (read_element_wf _ _ _ Hwf Hread).
    + apply read_element_shorter in Hread. cbn [length] in *. lia.
Qed.

Lemma unpacks_loop_safe fuel : forall rdr tups,
  wf_bytes rdr -> (length rdr <= fuel)%nat -> in_bounds (unpacks_loop fuel rdr tups).
Proof.
  induction fuel as [|fuel IH]; intros rdr tups Hwf Hfuel;
    destruct rdr as [|ch rdr]; cbn [unpacks_loop]; try apply in_bounds_ok.
  - cbn [length] in Hfuel. lia.
  - apply in_bounds_bind; [apply unpack_loop_safe; [exact Hwf|lia]|].
    intros [tup r] Hun. apply IH.
    + exact (unpack_loop_wf _ _ _ _ _ Hwf Hun).
    + apply unpack_loop_shorter in Hun. destruct Hun as [_ Hlt].
      specialize (Hlt ltac:(discriminate)). cbn [length] in *. lia.
Qed.

Lemma iterate_safe fuel : forall pre rdr acc,
  wf_bytes rdr -> (length rdr <= fuel)%nat ->
  in_bounds (iterate fuel (mkKeyIter (mkKey (pre ++ rdr)) (length pre)) acc).
Proof.
  induction fuel as [|fuel IH]; intros pre rdr acc Hwf Hfuel.
  all: cbn [iterate]; unfold keyiter_next; cbn [iter_key iter_pos key_bytes].
  all: destruct rdr as [|b rdr0];
    [rewrite app_nil_r, Nat.leb_refl; apply in_bounds_ok|].
  - cbn [length] in Hfuel. lia.
  - destruct (Nat.leb_spec (length (pre ++ b :: rdr0)) (length pre)) as [Hle|_];
      [rewrite length_app in Hle; cbn [length] in Hle; lia|].
    rewrite drop_app_length.
    pose proof (read_element_safe (b :: rdr0) Hwf ltac:(discriminate)) as Hsafe.
    destruct (read_element (b :: rdr0)) as [[e r']|err] eqn:Hread.
    + destruct (read_element_suffix _ _ _ Hwf Hread) as [c Hc].
      pose proof (read_element_wf _ _ _ Hwf Hread) as Hwf'.
      pose proof (read_element_shorter _ _ _ Hread) as Hshort.
      rewrite Hc, app_assoc.
      replace (length ((pre ++ c) ++ r') - length r')%nat with (length (pre ++ c))
        by (rewrite (length_app (pre ++ c)); lia).
      apply IH; [exact Hwf'|cbn [length] in *; lia].
    + destruct Hsafe as [H1 H2].
      destruct err; try apply in_bounds_ok; try (split; discriminate); congruence.
Qed.

End SafeFacts.

(** [py_decode_offsets]: with [1 + count] places in the list, every
    [PyList_SET_ITEM] of the loop is inside it. *)
Lemma decode_offsets_loop_safe todo : forall i rdr pos out,
  wf_bytes rdr -> 0 <= i -> 1 + i + Z.of_nat todo <= Z.of_nat (length out) ->
  in_bounds (decode_offsets_loop todo i rdr pos out).
Proof.
  induction todo as [|todo IH]; intros i rdr pos out Hwf Hi Hlen;
    cbn [decode_offsets_loop]; [apply in_bounds_ok|].
  apply in_bounds_bind; [apply read_plain_int_safe; auto|].
  intros [offset r] Hread.
  unfold PyList_SET_ITEM.
  destruct (Z.leb_spec 0 (1 + i)); [|lia].
  destruct (Z.ltb_spec (1 + i) (Z.of_nat (length out))); [|lia].
  cbn [andb bind]. apply IH.
  - destruct (read_plain_int_suffix _ _ _ _ Hwf (or_introl eq_refl) Hread) as [c ->].
    apply Forall_app in Hwf. apply Hwf.
  - lia.
  - rewrite length_insert. lia.
Qed.

(** ** A Key against a tuple *)


Section CompareTupleFacts.
Context `{K : Kinds} `{U : PyUnicode}.
Hypothesis Hkinds : kinds_ok = true.


End CompareTupleFacts.

(** ** The elements that are accepted *)

Section EncodableFacts.
Context `{K : Kinds} `{U : PyUnicode}.
Hypothesis Hkinds : kinds_ok = true.
Hypothesis Hutf : utf8_ok.

Lemma encodable_wf e : encodable e -> wf_element e.
Proof. destruct e; cbn [encodable wf_element]; auto. Qed.

Lemma encodable_payload e : encodable e -> exists k pl, payload e = Some (k, pl).
Proof.
  destruct e as [|v|s|u|b|ss|]; cbn [encodable payload]; intros He; eauto.
  - unfold fits_int64.
    destruct (Z.leb_spec (- 2 ^ 63) v); [|lia].
    destruct (Z.ltb_spec v (2 ^ 63)); [|lia]. cbn [andb].
    destruct (v <? 0); eauto.
  - destruct (PyUnicode_EncodeUTF8 u); [eauto|contradiction].
  - contradiction.
Qed.






(** ** Indexing through the sequence protocol *)

(** On the Key of a tuple without booleans, [k[i]] is the element at [i],
    counted from the end when [i] is negative. *)
Lemma getitem_no_bool t k i :
  Forall wf_element t -> Forall no_bool t -> key_new t = Ok k ->
  PySequence_GetItem k i =
  let n := Z.of_nat (length t) in
  let j := if i <? 0 then i + n else i in
  if (0 <=? j) && (j <? n) then
    match t !! Z.to_nat j with
    | Some e => Ok e
    | None => Raise PyIndexError
    end
  else Raise PyIndexError.
Proof using Hkinds Hutf.
  intros Hwf Hnb Hn. unfold PySequence_GetItem. cbv zeta.
  rewrite (key_length_no_bool Hkinds Hutf t k Hwf Hnb Hn). cbn [bind].
  destruct (i <? 0); apply (key_item_no_bool Hkinds Hutf t k _ Hwf Hnb Hn).
Qed.

End EncodableFacts.


(** * The properties stated by the specification *)

(** ** Varints *)

Example varint_boundaries_decode :
  forallb (fun v =>
    match read_plain_int (py_pack_int [] v) 0 with
    | Ok (v', []) => v' =? v
    | _ => false
    end) varint_boundaries = true.
Proof. vm_compute. reflexivity. Qed.

(** C1. For all unsigned 64-bit [a] and [b], the encodings [write_int]
    produces with no kind byte and no XOR compare as byte strings the way [a]
    and [b] compare as numbers, and [read_plain_int] gives back [a] from its
    encoding, reading all of it. The boundaries of the ranges are values like
    any other. *)
Theorem C1_varint_order_roundtrip (a b : Z) :
  0 <= a < 2 ^ 64 -> 0 <= b < 2 ^ 64 ->
  (bytes_compare (write_int [] a 0 0) (write_int [] b 0 0) < 0 <-> a < b) /\
  read_plain_int (write_int [] a 0 0) 0 = Ok (a, []).
Proof.
  intros Ha Hb. rewrite !write_int_plain by assumption. split.
  - apply varint_bytes_order; assumption.
  - pose proof (read_plain_int_varint a 0 [] Ha ltac:(lia)) as H.
    rewrite app_nil_r in H. rewrite <- H. f_equal.
    rewrite <- (map_id (varint_bytes a)) at 1. apply map_ext.
    intros x. symmetry. apply Z.lxor_0_l.
Qed.

Lemma C1_witness :
  0 <= 2287 < 2 ^ 64 /\ 0 <= 2288 < 2 ^ 64 /\
  ((bytes_compare (write_int [] 2287 0 0) (write_int [] 2288 0 0) < 0
    <-> 2287 < 2288) /\
   read_plain_int (write_int [] 2287 0 0) 0 = Ok (2287, [])).
Proof.
  split; [lia|]. split; [lia|].
  apply (C1_varint_order_roundtrip 2287 2288); lia.
Defined.

(** ** Strings *)

(** C3. For all byte strings [x] and [y], what [write_str] writes for them,
    with the same kind byte or with none, compares the way [x] and [y] do,
    and every byte of the escaped payload is at least [0x80]. *)
Theorem C3_string_order (x y : list Z) (kind : Z) :
  wf_bytes x -> wf_bytes y ->
  (bytes_compare (write_str [] x kind) (write_str [] y kind) < 0
   <-> bytes_compare x y < 0) /\
  Forall (fun b => 128 <= b < 256) (write_str [] x 0).
Proof.
  intros Hx Hy. split.
  - rewrite <- (write_str_order x y Hx Hy).
    unfold write_str. destruct (kind =? 0); [reflexivity|].
    rewrite !(write_str_loop_app _ (writer_putchar [] kind)).
    rewrite bytes_compare_app_same. reflexivity.
  - rewrite write_str_payload. apply write_str_loop_high.
Qed.

Lemma C3_witness :
  wf_bytes [97] /\ wf_bytes [97; 0] /\
  ((bytes_compare (write_str [] [97] 40) (write_str [] [97; 0] 40) < 0
    <-> bytes_compare [97] [97; 0] < 0) /\
   Forall (fun b => 128 <= b < 256) (write_str [] [97] 0)).
Proof.
  assert (H1 : wf_bytes [97]) by (repeat constructor; lia).
  assert (H2 : wf_bytes [97; 0]) by (repeat constructor; lia).
  split; [exact H1|]. split; [exact H2|].
  apply (C3_string_order [97] [97; 0] 40 H1 H2).
Defined.

(** ** Elements *)

(** C2. Every element other than a timestamp is accepted by
    [write_element]: [None], an integer in the range of 64 bits, negative
    or not, a boolean, a byte string, a unicode string that the UTF-8 codec
    encodes, a UUID. It is what [read_element] returns from the bytes
    written, and the reader is then at their end: at the end of the input
    when nothing follows, and at the next byte when a kind byte or a
    separator does. *)
Theorem C2_element_roundtrip `{K : Kinds} `{U : PyUnicode} (e : element) :
  kinds_ok = true -> utf8_ok -> encodable e ->
  exists enc,
    write_element [] e = Ok enc /\
    read_element enc = Ok (e, []) /\
    forall rest, ends_string rest -> read_element (enc ++ rest) = Ok (e, rest).
Proof.
  intros Hk Hu He.
  destruct (encodable_payload e He) as (k & pl & Hp).
  pose proof (encodable_wf e He) as Hwf.
  exists (k :: pl). split; [|split].
  - exact (payload_write_element Hk [] e k pl Hp).
  - rewrite <- (app_nil_r pl). apply read_element_payload; auto. exact I.
  - intros rest Hrest. cbn [app]. apply read_element_payload; auto.
Qed.

Lemma C2_witness :
  @kinds_ok Sample.kinds = true /\ @utf8_ok Sample.ascii /\
  Forall (fun e : @element Sample.ascii =>
            @encodable Sample.ascii e /\
            exists enc,
              @write_element Sample.kinds Sample.ascii [] e = Ok enc /\
              @read_element Sample.kinds Sample.ascii enc = Ok (e, []) /\
              forall rest, ends_string rest ->
                @read_element Sample.kinds Sample.ascii (enc ++ rest) = Ok (e, rest))
    [@ENone Sample.ascii; EInt 300; EInt (-70000); EBool true; EBool false;
     EStr [0; 255]; @EUnicode Sample.ascii [97];
     EUuid [0; 1; 2; 3; 4; 5; 6; 7; 8; 9; 10; 11; 12; 13; 14; 255]].
Proof.
  assert (Hnone : @encodable Sample.ascii ENone) by exact I.
  assert (Hpos : @encodable Sample.ascii (EInt 300)) by (cbn; lia).
  assert (Hneg : @encodable Sample.ascii (EInt (-70000))) by (cbn; lia).
  assert (Htrue : @encodable Sample.ascii (EBool true)) by exact I.
  assert (Hfalse : @encodable Sample.ascii (EBool false)) by exact I.
  assert (Hstr : @encodable Sample.ascii (EStr [0; 255]))
    by (cbn; repeat constructor; lia).
  assert (Htext : @encodable Sample.ascii (@EUnicode Sample.ascii [97])) by exact I.
  assert (Huuid : @encodable Sample.ascii
            (EUuid [0; 1; 2; 3; 4; 5; 6; 7; 8; 9; 10; 11; 12; 13; 14; 255]))
    by (cbn; split; [repeat constructor; lia|reflexivity]).
  split; [reflexivity|]. split; [exact sample_utf8_ok|].
  repeat match goal with
  | |- Forall _ (_ :: _) => apply List.Forall_cons
  | |- Forall _ [] => apply List.Forall_nil
  end.
  - split; [exact Hnone|].
    apply (@C2_element_roundtrip Sample.kinds Sample.ascii _ eq_refl sample_utf8_ok Hnone).
  - split; [exact Hpos|].
    apply (@C2_element_roundtrip Sample.kinds Sample.ascii _ eq_refl sample_utf8_ok Hpos).
  - split; [exact Hneg|].
    apply (@C2_element_roundtrip Sample.kinds Sample.ascii _ eq_refl sample_utf8_ok Hneg).
  - split; [exact Htrue|].
    apply (@C2_element_roundtrip Sample.kinds Sample.ascii _ eq_refl sample_utf8_ok Htrue).
  - split; [exact Hfalse|].
    apply (@C2_element_roundtrip Sample.kinds Sample.ascii _ eq_refl sample_utf8_ok Hfalse).
  - split; [exact Hstr|].
    apply (@C2_element_roundtrip Sample.kinds Sample.ascii _ eq_refl sample_utf8_ok Hstr).
  - split; [exact Htext|].
    apply (@C2_element_roundtrip Sample.kinds Sample.ascii _ eq_refl sample_utf8_ok Htext).
  - split; [exact Huuid|].
    apply (@C2_element_roundtrip Sample.kinds Sample.ascii _ eq_refl sample_utf8_ok Huuid).
Defined.

(** ** Prefixes *)

(** C9. When [s] is shorter than the prefix, or does not start with it,
    [unpack], [unpacks] and [Key.from_raw] each return [None], and raise
    nothing. *)
Theorem C9_prefix_mismatch `{K : Kinds} `{U : PyUnicode} (prefix s : list Z) :
  (length s < length prefix)%nat \/ take (length prefix) s <> prefix ->
  py_unpack prefix s = Ok None /\
  py_unpacks prefix s = Ok None /\
  key_from_raw prefix s = Ok None.
Proof.
  intros Hmis.
  assert (Hcond : (length s <? length prefix)%nat
                  || negb (memcmp prefix s (length prefix) =? 0) = true).
  { destruct (Nat.ltb_spec (length s) (length prefix)) as [Hlt|Hge]; [reflexivity|].
    destruct Hmis as [Hlt|Hne]; [lia|]. cbn [orb].
    destruct (Z.eqb_spec (memcmp prefix s (length prefix)) 0) as [H0|H0]; [|reflexivity].
    exfalso. apply Hne. apply memcmp_take in H0; [|lia|lia].
    rewrite <- H0. apply firstn_all. }
  unfold py_unpack, py_unpacks, key_from_raw. rewrite Hcond. auto.
Qed.

Lemma C9_witness :
  ((length [112; 21] < length [112; 113; 114])%nat
   \/ take (length [112; 113; 114]) [112; 21] <> [112; 113; 114]) /\
  (@py_unpack Sample.kinds Sample.ascii [112; 113; 114] [112; 21] = Ok None /\
   @py_unpacks Sample.kinds Sample.ascii [112; 113; 114] [112; 21] = Ok None /\
   key_from_raw [112; 113; 114] [112; 21] = Ok None).
Proof.
  assert (H : (length [112; 21] < length [112; 113; 114])%nat
              \/ take (length [112; 113; 114]) [112; 21] <> [112; 113; 114])
    by (left; cbn; lia).
  split; [exact H|].
  apply (@C9_prefix_mismatch Sample.kinds Sample.ascii [112; 113; 114] [112; 21] H).
Defined.

(** C10. When the input is the prefix and nothing more, [unpack] returns
    the empty tuple and [unpacks] the empty list: a match with no elements,
    which is neither [None] nor an error. *)
Theorem C10_prefix_only `{K : Kinds} `{U : PyUnicode} (prefix : list Z) :
  py_unpack prefix prefix = Ok (Some []) /\
  py_unpacks prefix prefix = Ok (Some []).
Proof.
  unfold py_unpack, py_unpacks.
  rewrite Nat.ltb_irrefl, memcmp_refl. cbn [Z.eqb negb orb].
  rewrite drop_all. split; reflexivity.
Qed.

(** ** Packing *)

(** C8, as the code has it. The tuple of the one string ["a"], packed with
    an empty prefix, is three bytes: the TEXT kind byte, then [0xB0] (the top
    seven bits of [0x61] under the high bit), then [0xC0] (its last bit, in
    bit 6, under the high bit). *)
Theorem C8_pack_a_amended `{K : Kinds} `{U : PyUnicode} (a : unicode) :
  kinds_ok = true -> PyUnicode_EncodeUTF8 a = Some [97] ->
  py_packs [] (PSingle (ITuple [EUnicode a])) = Ok [KIND_TEXT; 176; 192].
Proof.
  intros Hk Ha. kinds_intro Hk.
  unfold py_packs, writer_puts. cbn [app write_item write_tuple write_element].
  rewrite Ha. cbn [bind]. rewrite write_str_eq by lia. reflexivity.
Qed.

Lemma C8_witness :
  @kinds_ok Sample.kinds = true /\
  @PyUnicode_EncodeUTF8 Sample.ascii [97] = Some [97] /\
  @py_packs Sample.kinds Sample.ascii [] (PSingle (ITuple [@EUnicode Sample.ascii [97]]))
  = Ok [50; 176; 192].
Proof.
  split; [reflexivity|]. split; [reflexivity|].
  apply (@C8_pack_a_amended Sample.kinds Sample.ascii [97] eq_refl eq_refl).
Defined.

(** C8, as the specification has it: the bytes after the kind are not
    [0xC2], [0xB0]. *)
Lemma C8_counterexample :
  @py_packs Sample.kinds Sample.ascii [] (PSingle (ITuple [@EUnicode Sample.ascii [97]]))
  <> Ok [@KIND_TEXT Sample.kinds; 194; 176].
Proof. vm_compute. discriminate. Qed.




(** ** Keys *)

(** C5, where the code departs from it. [skip_element] steps over the kind
    byte of a boolean and not over its value byte, which the next call takes
    for a kind: the length of the Key of [(False,)] is an error, while
    iterating it yields its one element. *)
Theorem C5_length_of_bool_key `{K : Kinds} `{U : PyUnicode} :
  kinds_ok = true ->
  key_new [EBool false] = Ok (mkKey [KIND_BOOL; 0]) /\
  key_length (mkKey [KIND_BOOL; 0]) = Raise PyValueError /\
  key_elements (mkKey [KIND_BOOL; 0]) = Ok [EBool false].
Proof.
  intros Hk. kinds_intro Hk. split; [|split].
  - unfold key_new.
    rewrite (tuple_bytes_write Hk [EBool false] [] [KIND_BOOL; 0] eq_refl).
    reflexivity.
  - unfold key_length. cbn [key_bytes length reader_at_end key_length_loop].
    rewrite (skip_element_bool false [] false). cbn [bind].
    rewrite (skip_element_zero Hk). reflexivity.
  - unfold key_elements, key_iter. cbn [key_bytes length].
    unfold iterate, keyiter_next. cbn [iter_key iter_pos key_bytes length Nat.leb drop].
    rewrite (read_element_bool Hk false []).
    cbn [length Nat.sub Nat.leb app]. reflexivity.
Qed.

Lemma C5_witness :
  @kinds_ok Sample.kinds = true /\
  (@key_new Sample.kinds Sample.ascii [EBool false] = Ok (mkKey [30; 0]) /\
   @key_length Sample.kinds (mkKey [30; 0]) = Raise PyValueError /\
   @key_elements Sample.kinds Sample.ascii (mkKey [30; 0]) = Ok [EBool false]).
Proof.
  split; [reflexivity|].
  apply (@C5_length_of_bool_key Sample.kinds Sample.ascii eq_refl).
Defined.

(** C6, where the code departs from it. Indexing with a negative index
    adds the length of the Key to it first, and the length of a Key that
    holds a boolean is an error (C5): on the Key of [(False,)], of one
    element, the index [0] gives the element, and the index [-1], which
    counts from the end and should give the same, fails as [key_length]
    does. *)
Theorem C6_negative_index_of_bool_key `{K : Kinds} `{U : PyUnicode} :
  kinds_ok = true ->
  key_new [EBool false] = Ok (mkKey [KIND_BOOL; 0]) /\
  PySequence_GetItem (mkKey [KIND_BOOL; 0]) 0 = Ok (EBool false) /\
  PySequence_GetItem (mkKey [KIND_BOOL; 0]) (-1) = Raise PyValueError.
Proof.
  intros Hk. kinds_intro Hk. split; [|split].
  - unfold key_new.
    rewrite (tuple_bytes_write Hk [EBool false] [] [KIND_BOOL; 0] eq_refl).
    reflexivity.
  - unfold PySequence_GetItem, key_item.
    cbn [Z.ltb Z.compare key_bytes length reader_at_end key_item_loop
         Z.eqb negb andb bind].
    rewrite (read_element_bool Hk false []). reflexivity.
  - unfold PySequence_GetItem.
    change (-1 <? 0) with true. cbv iota.
    unfold key_length. cbn [key_bytes length reader_at_end key_length_loop].
    rewrite (skip_element_bool false [] false). cbn [bind].
    rewrite (skip_element_zero Hk). reflexivity.
Qed.

Lemma C6_witness :
  @kinds_ok Sample.kinds = true /\
  (@key_new Sample.kinds Sample.ascii [EBool false] = Ok (mkKey [30; 0]) /\
   @PySequence_GetItem Sample.kinds Sample.ascii (mkKey [30; 0]) 0 = Ok (EBool false) /\
   @PySequence_GetItem Sample.kinds Sample.ascii (mkKey [30; 0]) (-1)
   = Raise PyValueError).
Proof.
  split; [reflexivity|].
  apply (@C6_negative_index_of_bool_key Sample.kinds Sample.ascii eq_refl).
Defined.

(** C7, where the code departs from it. When the bytes of the Key end
    inside the encoding of the last element of the tuple, the comparison
    stops with everything equal so far and nothing left on either side: the
    Key of [("",)] compares equal to the tuple [("a",)], although its bytes
    are a proper prefix of the encoding of the tuple and sort below it. *)
Theorem C7_key_equals_longer_tuple `{K : Kinds} `{U : PyUnicode} :
  kinds_ok = true ->
  let k := mkKey [KIND_BLOB] in
  key_new [EStr []] = Ok k /\
  write_tuple [] [EStr [97]] = Ok [KIND_BLOB; 176; 192] /\
  key_richcompare k (OTuple [EStr [97]]) Py_EQ = Ok true /\
  key_richcompare k (OTuple [EStr [97]]) Py_LT = Ok false /\
  bytes_compare (key_bytes k) [KIND_BLOB; 176; 192] = -1.
Proof.
  intros Hk k. subst k. kinds_intro Hk.
  assert (Hw : forall s, write_element [] (EStr s)
                         = Ok (KIND_BLOB :: write_str_loop [] s 1 0)).
  { intros s. cbn [write_element]. rewrite write_str_eq by lia. reflexivity. }
  repeat split.
  - unfold key_new. cbn [write_tuple bind]. rewrite Hw. reflexivity.
  - cbn [write_tuple bind]. rewrite Hw. reflexivity.
  - unfold key_richcompare, key_compare. cbn [key_bytes compare_tuple].
    rewrite Hw. cbn -[Z.eqb Z.ltb]. rewrite Z.ltb_irrefl.
    cbn. reflexivity.
  - unfold key_richcompare, key_compare. cbn [key_bytes compare_tuple].
    rewrite Hw. cbn -[Z.eqb Z.ltb]. rewrite Z.ltb_irrefl.
    cbn. reflexivity.
  - cbn [key_bytes]. rewrite bytes_compare_cons, Z.ltb_irrefl. reflexivity.
Qed.

Lemma C7_witness :
  @kinds_ok Sample.kinds = true /\
  (let k := mkKey [40] in
   @key_new Sample.kinds Sample.ascii [EStr []] = Ok k /\
   @write_tuple Sample.kinds Sample.ascii [] [EStr [97]] = Ok [40; 176; 192] /\
   @key_richcompare Sample.kinds Sample.ascii k (OTuple [EStr [97]]) Py_EQ = Ok true /\
   @key_richcompare Sample.kinds Sample.ascii k (OTuple [EStr [97]]) Py_LT = Ok false /\
   bytes_compare (key_bytes k) [40; 176; 192] = -1).
Proof.
  split; [reflexivity|].
  apply (@C7_key_equals_longer_tuple Sample.kinds Sample.ascii eq_refl).
Defined.


(** * Further properties of the code *)

(** ** Prefixes and raw bytes *)

(** X1. [Key.from_raw] undoes [to_raw]: the raw bytes of a Key under a
    prefix, read back with the same prefix, give the Key. *)
Theorem X1_from_raw_to_raw (k : Key) (prefix : list Z) :
  key_from_raw prefix (key_to_raw k prefix) = Ok (Some k).
Proof.
  destruct k as [bs]. unfold key_from_raw, key_to_raw. cbn [key_bytes].
  destruct (Nat.ltb_spec (length (prefix ++ bs)) (length prefix)) as [Hlt|_];
    [rewrite length_app in Hlt; lia|].
  rewrite memcmp_same. cbn [Z.eqb negb orb].
  rewrite drop_app_length. reflexivity.
Qed.


(** ** Packing one tuple *)

(** X3. One tuple of elements other than timestamps, empty or not and
    booleans included, packed behind a prefix, is what [unpack] returns for
    that prefix; and [Key.from_raw] of the packed bytes is the Key of the
    tuple. *)
Theorem X3_unpack_pack `{K : Kinds} `{U : PyUnicode}
    (prefix : list Z) (t : list element) (packed : list Z) :
  kinds_ok = true -> utf8_ok -> Forall wf_element t ->
  py_packs prefix (PSingle (ITuple t)) = Ok packed ->
  py_unpack prefix packed = Ok (Some t) /\
  (let* k := key_new t in Ok (Some k)) = key_from_raw prefix packed.
Proof.
  intros Hk Hu Hwf Hp.
  unfold py_packs, writer_puts in Hp. cbn [app write_item] in Hp.
  destruct (write_tuple_bytes Hk _ _ _ Hp) as (bs & Hbs & ->).
  split.
  - unfold py_unpack.
    destruct (Nat.ltb_spec (length (prefix ++ bs)) (length prefix)) as [Hlt|_];
      [rewrite length_app in Hlt; lia|].
    rewrite memcmp_same, drop_app_length. cbn [Z.eqb negb orb].
    pose proof (unpack_tuple Hk Hu t bs [] Hwf Hbs I) as Hun.
    rewrite app_nil_r in Hun. rewrite Hun. reflexivity.
  - unfold key_new. rewrite (tuple_bytes_write Hk t [] bs Hbs). cbn [bind app].
    unfold key_from_raw.
    destruct (Nat.ltb_spec (length (prefix ++ bs)) (length prefix)) as [Hlt|_];
      [rewrite length_app in Hlt; lia|].
    rewrite memcmp_same, drop_app_length. reflexivity.
Qed.

Lemma X3_witness :
  @kinds_ok Sample.kinds = true /\ @utf8_ok Sample.ascii /\
  Forall (@wf_element Sample.ascii) [EBool true; ENone; EStr [0; 255]] /\
  @py_packs Sample.kinds Sample.ascii [112]
    (PSingle (ITuple [EBool true; ENone; EStr [0; 255]]))
  = Ok [112; 30; 1; 15; 40; 128; 191; 224] /\
  (@py_unpack Sample.kinds Sample.ascii [112] [112; 30; 1; 15; 40; 128; 191; 224]
   = Ok (Some [EBool true; ENone; EStr [0; 255]]) /\
   (let* k := @key_new Sample.kinds Sample.ascii [EBool true; ENone; EStr [0; 255]]
    in Ok (Some k))
   = key_from_raw [112] [112; 30; 1; 15; 40; 128; 191; 224]).
Proof.
  assert (Hwf : Forall (@wf_element Sample.ascii) [EBool true; ENone; EStr [0; 255]])
    by (repeat constructor; cbn; lia).
  split; [reflexivity|]. split; [exact sample_utf8_ok|]. split; [exact Hwf|].
  split; [reflexivity|].
  apply (@X3_unpack_pack Sample.kinds Sample.ascii [112]
           [EBool true; ENone; EStr [0; 255]] _ eq_refl sample_utf8_ok Hwf eq_refl).
Defined.



(** ** Comparing Keys *)

(** X5. Between Keys, [key_richcompare] is the strict total order of their
    bytes: [==] holds exactly for Keys of the same bytes, exactly one of
    [<], [==], [>] holds, [<] is [>] with the sides exchanged, and [<] is
    transitive. *)
Theorem X5_key_order `{K : Kinds} `{U : PyUnicode} (a b c : Key) :
  (key_richcompare a (OKey b) Py_EQ = Ok true <-> a = b) /\
  (key_richcompare a (OKey b) Py_LT = Ok true
   <-> key_richcompare b (OKey a) Py_GT = Ok true) /\
  (key_richcompare a (OKey b) Py_LT = Ok true \/
   key_richcompare a (OKey b) Py_EQ = Ok true \/
   key_richcompare a (OKey b) Py_GT = Ok true) /\
  (key_richcompare a (OKey b) Py_LT = Ok true ->
   key_richcompare a (OKey b) Py_EQ = Ok false /\
   key_richcompare a (OKey b) Py_GT = Ok false) /\
  (key_richcompare a (OKey b) Py_LT = Ok true ->
   key_richcompare b (OKey c) Py_LT = Ok true ->
   key_richcompare a (OKey c) Py_LT = Ok true).
Proof.
  destruct a as [x], b as [y], c as [z].
  unfold key_richcompare, key_compare. cbn [key_bytes bind].
  pose proof (bytes_compare_antisym x y) as Hanti.
  destruct (bytes_compare_sign x y) as [Hxy|[[Hxy Heq]|Hxy]].
  - rewrite Hxy in *. cbn. repeat split; try discriminate; auto.
    + intros [= ->]. rewrite bytes_compare_refl in Hxy. discriminate.
    + rewrite Hanti. reflexivity.
    + intros _. destruct (bytes_compare_sign y z) as [Hyz|[[Hyz _]|Hyz]];
        rewrite Hyz; cbn; try discriminate.
      intros _. rewrite (bytes_compare_trans x y z Hxy Hyz). reflexivity.
  - subst y. rewrite bytes_compare_refl in *. cbn.
    repeat split; try discriminate; auto.
  - rewrite Hxy in *. cbn. repeat split; try discriminate; auto.
    + intros [= ->]. rewrite bytes_compare_refl in Hxy. discriminate.
    + rewrite Hanti. cbn. discriminate.
Qed.



(** ** Offsets *)

(** X7. [decode_offsets] on a count followed by that many deltas, each a
    bare varint, with anything behind them: the offsets are [0] and the
    running sums of the deltas, and the bytes read are those of the count and
    the deltas, not what follows. The count is below [2^31 - 1] and the sum
    of the deltas below [2^63], the ranges of the [int] and [long] the code
    converts them to. *)
Theorem X7_decode_offsets (ds rest : list Z) :
  Forall (fun d => 0 <= d) ds ->
  sum_list ds < 2 ^ 63 ->
  Z.of_nat (length ds) < 2 ^ 31 - 1 ->
  let packed := py_pack_int [] (Z.of_nat (length ds))
                ++ concat (map (py_pack_int []) ds) in
  py_decode_offsets (packed ++ rest)
  = Ok (map Some (0 :: offsets_from 0 ds), Z.of_nat (length packed)).
Proof.
  intros Hds Hsum Hlen packed. subst packed. unfold py_decode_offsets.
  rewrite <- app_assoc.
  rewrite read_plain_int_pack_int by lia. cbn [bind].
  rewrite (to_int_small (Z.of_nat (length ds))) by lia.
  rewrite to_int_small by lia.
  destruct (Z.ltb_spec (1 + Z.of_nat (length ds)) 0); [lia|].
  replace (Z.to_nat (1 + Z.of_nat (length ds))) with (S (length ds)) by lia.
  cbn [replicate]. unfold PyList_SET_ITEM at 1.
  cbn [length]. destruct (Z.ltb_spec 0 (Z.of_nat (S (length (replicate (length ds) (@None Z))))));
    [|lia].
  cbn [Z.leb Z.compare andb bind Z.to_nat list_insert insert].
  rewrite Nat2Z.id.
  change (<[Z.to_nat 0:=Some 0]> (None :: replicate (length ds) None))
    with ([Some 0] ++ replicate (length ds) (@None Z)).
  rewrite (decode_offsets_loop_deltas ds 0 0 [Some 0] rest Hds ltac:(lia) ltac:(lia) eq_refl).
  cbn [bind app map]. f_equal. f_equal.
  rewrite !length_app. lia.
Qed.

Lemma X7_witness :
  Forall (fun d => 0 <= d) [10; 5; 7] /\
  sum_list [10; 5; 7] < 2 ^ 63 /\
  Z.of_nat (length [10; 5; 7]) < 2 ^ 31 - 1 /\
  (let packed := py_pack_int [] (Z.of_nat (length [10; 5; 7]))
                 ++ concat (map (py_pack_int []) [10; 5; 7]) in
   py_decode_offsets (packed ++ [99; 98])
   = Ok (map Some (0 :: offsets_from 0 [10; 5; 7]), Z.of_nat (length packed))).
Proof.
  assert (H1 : Forall (fun d => 0 <= d) [10; 5; 7]) by (repeat constructor; lia).
  assert (H2 : sum_list [10; 5; 7] < 2 ^ 63) by (cbn; lia).
  assert (H3 : Z.of_nat (length [10; 5; 7]) < 2 ^ 31 - 1) by (cbn; lia).
  split; [exact H1|]. split; [exact H2|]. split; [exact H3|].
  apply (X7_decode_offsets [10; 5; 7] [99; 98] H1 H2 H3).
Defined.

(** ** Negative numbers *)

(** X8. With the XOR mask [0xff] of the negative kinds, [write_int]
    reverses the order: the encoding of the larger magnitude sorts lower;
    and [read_plain_int] with the same mask gives the magnitude back,
    leaving what follows. *)
Theorem X8_varint_xor (a b : Z) (rest : list Z) :
  0 <= a < 2 ^ 64 -> 0 <= b < 2 ^ 64 ->
  (bytes_compare (write_int [] a 0 255) (write_int [] b 0 255) < 0 <-> b < a) /\
  read_plain_int (write_int [] a 0 255 ++ rest) 255 = Ok (a, rest).
Proof.
  intros Ha Hb. rewrite !write_int_eq by lia. cbn [kind_bytes Z.eqb app]. split.
  - apply varint_bytes_order_xor; assumption.
  - apply read_plain_int_varint; lia.
Qed.

Lemma X8_witness :
  0 <= 5 < 2 ^ 64 /\ 0 <= 70000 < 2 ^ 64 /\
  ((bytes_compare (write_int [] 5 0 255) (write_int [] 70000 0 255) < 0
    <-> 70000 < 5) /\
   read_plain_int (write_int [] 5 0 255 ++ [1; 2]) 255 = Ok (5, [1; 2])).
Proof.
  split; [lia|]. split; [lia|].
  apply (X8_varint_xor 5 70000 [1; 2]); lia.
Defined.

(** X9. Integers sort as numbers. When the kind of negative integers is
    below the kind of the others, the encodings [write_element] gives two
    integers of 64 bits compare the way the integers do, whatever their
    signs. *)
Theorem X9_integer_order `{K : Kinds} `{U : PyUnicode} (a b : Z) (x y : list Z) :
  kinds_ok = true -> KIND_NEG_INTEGER < KIND_INTEGER ->
  write_element [] (EInt a) = Ok x -> write_element [] (EInt b) = Ok y ->
  (bytes_compare x y < 0 <-> a < b).
Proof.
  intros Hk Hord Hx Hy.
  assert (Hmono : forall u v ex ey, u < v ->
            write_element [] (EInt u) = Ok ex -> write_element [] (EInt v) = Ok ey ->
            bytes_compare ex ey = -1).
  { intros u v ex ey Huv Hex Hey.
    destruct (write_element_payload Hk _ _ _ Hex) as (ku & pu & Hpu & ->).
    destruct (write_element_payload Hk _ _ _ Hey) as (kv & pv & Hpv & ->).
    exact (int_payload_lt u v ku pu kv pv Hord Huv Hpu Hpv). }
  split.
  - intros Hlt. destruct (Z.lt_trichotomy a b) as [H|[->|H]]; [exact H| |].
    + rewrite Hx in Hy. injection Hy as <-. rewrite bytes_compare_refl in Hlt. lia.
    + rewrite bytes_compare_antisym, (Hmono b a y x H Hy Hx) in Hlt. lia.
  - intros H. rewrite (Hmono a b x y H Hx Hy). lia.
Qed.

Lemma X9_witness :
  @kinds_ok Sample.kinds = true /\
  @KIND_NEG_INTEGER Sample.kinds < @KIND_INTEGER Sample.kinds /\
  @write_element Sample.kinds Sample.ascii [] (EInt (-70000)) = Ok [20; 5; 254; 238; 143] /\
  @write_element Sample.kinds Sample.ascii [] (EInt (-1)) = Ok [20; 254] /\
  (bytes_compare [20; 5; 254; 238; 143] [20; 254] < 0 <-> -70000 < -1).
Proof.
  assert (H : @KIND_NEG_INTEGER Sample.kinds < @KIND_INTEGER Sample.kinds)
    by (cbn; lia).
  split; [reflexivity|]. split; [exact H|]. split; [reflexivity|].
  split; [reflexivity|].
  apply (@X9_integer_order Sample.kinds Sample.ascii (-70000) (-1) _ _
           eq_refl H eq_refl eq_refl).
Defined.

(** ** Sizes *)

(** X10. A varint is 1 to 9 bytes long, whatever the mask, and a larger
    value never has a shorter encoding. *)
Theorem X10_varint_size (a b xor : Z) :
  0 <= a <= b -> b < 2 ^ 64 -> 0 <= xor < 256 ->
  (1 <= length (write_int [] a 0 xor) <= 9)%nat /\
  (length (write_int [] a 0 xor) <= length (write_int [] b 0 xor))%nat.
Proof.
  intros Hab Hb Hx. rewrite !write_int_eq by lia. cbn [kind_bytes Z.eqb app].
  rewrite !length_map. split.
  - apply varint_bytes_length. lia.
  - apply varint_bytes_length_mono; lia.
Qed.

Lemma X10_witness :
  0 <= 2 ^ 56 - 1 <= 2 ^ 56 /\ 2 ^ 56 < 2 ^ 64 /\ 0 <= 255 < 256 /\
  ((1 <= length (write_int [] (2 ^ 56 - 1) 0 255) <= 9)%nat /\
   (length (write_int [] (2 ^ 56 - 1) 0 255)
    <= length (write_int [] (2 ^ 56) 0 255))%nat).
Proof.
  split; [lia|]. split; [lia|]. split; [lia|].
  apply (X10_varint_size (2 ^ 56 - 1) (2 ^ 56) 255); lia.
Defined.

(** X11. The escaped form of a string of [n] bytes has [n + ceil(n / 7)]
    bytes: one for each byte and one more for every seven, begun or
    complete. With a kind byte that is one more. *)
Theorem X11_string_size (p : list Z) (kind : Z) :
  Z.of_nat (length (write_str [] p kind))
  = (if kind =? 0 then 0 else 1)
    + Z.of_nat (length p) + (Z.of_nat (length p) + 6) / 7.
Proof.
  unfold write_str. destruct (kind =? 0).
  - rewrite write_str_loop_length by lia.
    replace (Z.of_nat (length p) + 1 + 5) with (Z.of_nat (length p) + 6) by lia. lia.
  - rewrite write_str_loop_app, length_app. unfold writer_putchar. cbn [app length].
    rewrite Nat2Z.inj_add, write_str_loop_length by lia.
    replace (Z.of_nat (length p) + 1 + 5) with (Z.of_nat (length p) + 6) by lia.
    change (Z.of_nat 1) with 1. lia.
Qed.

(** ** Keys *)



(** X13. The hash of a Key is never [-1], the mark of a hash not yet
    computed: the first call computes it, stores it and returns it, and a
    call with the stored value returns the same and leaves it stored. *)
Theorem X13_key_hash (k : Key) :
  let '(h, stored) := key_hash (-1) k in
  h <> -1 /\ stored = h /\ - 2 ^ 63 <= h < 2 ^ 63 /\ key_hash stored k = (h, stored).
Proof.
  unfold key_hash. change (-1 =? -1) with true. cbv iota.
  assert (Hr : - 2 ^ 63 <= key_hash_loop (key_bytes k) 0 < 2 ^ 63).
  { assert (Hgen : forall p h, - 2 ^ 63 <= h < 2 ^ 63 ->
              - 2 ^ 63 <= key_hash_loop p h < 2 ^ 63).
    { induction p as [|b p IH]; intros h Hh; cbn [key_hash_loop]; [exact Hh|].
      apply IH, to_long_range. }
    apply Hgen. lia. }
  destruct (Z.eqb_spec (key_hash_loop (key_bytes k) 0) (-1)) as [->|Hne].
  - change (to_long (-1 - 1)) with (-2). cbn. repeat split; lia.
  - repeat split; try lia.
    destruct (Z.eqb_spec (key_hash_loop (key_bytes k) 0) (-1)); [contradiction|].
    reflexivity.
Qed.

(** X14. Without booleans, the length of the Key of a tuple of elements
    other than timestamps is the number of elements of the tuple. *)
Theorem X14_key_length `{K : Kinds} `{U : PyUnicode} (t : list element) (k : Key) :
  kinds_ok = true -> utf8_ok ->
  Forall wf_element t -> Forall no_bool t -> key_new t = Ok k ->
  key_length k = Ok (Z.of_nat (length t)).
Proof.
  intros Hk Hu Hwf Hnb Hn. pose proof (key_new_bytes Hk t k Hn) as Hbs.
  unfold key_length. rewrite (tuple_bytes_at_end Hk _ _ Hbs).
  destruct t as [|e t].
  - apply key_length_loop_eof.
  - rewrite (key_length_loop_tuple Hk Hu (e :: t) _ _ 0 Hwf Hnb Hbs
               ltac:(discriminate) (tuple_bytes_length _ _ Hbs)).
    reflexivity.
Qed.

Lemma X14_witness :
  @kinds_ok Sample.kinds = true /\ @utf8_ok Sample.ascii /\
  Forall (@wf_element Sample.ascii) [EStr [1; 2; 3]; EInt (-70000); ENone] /\
  Forall (@no_bool Sample.ascii) [EStr [1; 2; 3]; EInt (-70000); ENone] /\
  @key_new Sample.kinds Sample.ascii [EStr [1; 2; 3]; EInt (-70000); ENone]
  = Ok (mkKey [40; 128; 192; 192; 176; 20; 5; 254; 238; 143; 15]) /\
  @key_length Sample.kinds (mkKey [40; 128; 192; 192; 176; 20; 5; 254; 238; 143; 15])
  = Ok (Z.of_nat (length [@EStr Sample.ascii [1; 2; 3]; EInt (-70000); ENone])).
Proof.
  assert (Hwf : Forall (@wf_element Sample.ascii) [EStr [1; 2; 3]; EInt (-70000); ENone])
    by (repeat constructor; cbn; lia).
  assert (Hnb : Forall (@no_bool Sample.ascii) [EStr [1; 2; 3]; EInt (-70000); ENone])
    by (repeat constructor).
  split; [reflexivity|]. split; [exact sample_utf8_ok|].
  split; [exact Hwf|]. split; [exact Hnb|]. split; [reflexivity|].
  apply (@X14_key_length Sample.kinds Sample.ascii
           [EStr [1; 2; 3]; EInt (-70000); ENone] _ eq_refl sample_utf8_ok Hwf Hnb eq_refl).
Defined.

(** X15. Iterating the Key of a tuple of elements other than timestamps
    yields the elements of the tuple, in order, booleans included. *)
Theorem X15_key_iteration `{K : Kinds} `{U : PyUnicode} (t : list element) (k : Key) :
  kinds_ok = true -> utf8_ok ->
  Forall wf_element t -> key_new t = Ok k ->
  key_elements k = Ok t.
Proof. intros Hk Hu. apply key_elements_tuple; assumption. Qed.

Lemma X15_witness :
  @kinds_ok Sample.kinds = true /\ @utf8_ok Sample.ascii /\
  Forall (@wf_element Sample.ascii) [EBool true; EInt 300; EBool false] /\
  @key_new Sample.kinds Sample.ascii [EBool true; EInt 300; EBool false]
  = Ok (mkKey [30; 1; 21; 241; 60; 30; 0]) /\
  @key_elements Sample.kinds Sample.ascii (mkKey [30; 1; 21; 241; 60; 30; 0])
  = Ok [EBool true; EInt 300; EBool false].
Proof.
  assert (Hwf : Forall (@wf_element Sample.ascii) [EBool true; EInt 300; EBool false])
    by (repeat constructor).
  split; [reflexivity|]. split; [exact sample_utf8_ok|].
  split; [exact Hwf|]. split; [reflexivity|].
  apply (@X15_key_iteration Sample.kinds Sample.ascii
           [EBool true; EInt 300; EBool false] _ eq_refl sample_utf8_ok Hwf eq_refl).
Defined.

(** X16. Indexing from the front. On the Key of a tuple of [n] elements
    other than timestamps, none of them a boolean, [key_item] with an index
    from [0] to [n - 1] returns the element at that place, and with an
    index of [n] or more reports the index out of range. *)
Theorem X16_key_item `{K : Kinds} `{U : PyUnicode}
    (t : list element) (k : Key) (i : Z) :
  kinds_ok = true -> utf8_ok ->
  Forall wf_element t -> Forall no_bool t -> key_new t = Ok k ->
  0 <= i ->
  key_item k i =
  match t !! Z.to_nat i with
  | Some e => Ok e
  | None => Raise PyIndexError
  end.
Proof.
  intros Hk Hu Hwf Hnb Hn Hi.
  rewrite (key_item_no_bool Hk Hu t k i Hwf Hnb Hn).
  destruct (Z.leb_spec 0 i); [|lia]. cbn [andb].
  destruct (Z.ltb_spec i (Z.of_nat (length t))); [reflexivity|].
  rewrite lookup_ge_None_2 by lia. reflexivity.
Qed.

Lemma X16_witness :
  @kinds_ok Sample.kinds = true /\ @utf8_ok Sample.ascii /\
  Forall (@wf_element Sample.ascii) [EInt 1; EStr [97]; ENone] /\
  Forall (@no_bool Sample.ascii) [EInt 1; EStr [97]; ENone] /\
  @key_new Sample.kinds Sample.ascii [EInt 1; EStr [97]; ENone]
  = Ok (mkKey [21; 1; 40; 176; 192; 15]) /\
  0 <= 1 /\
  @key_item Sample.kinds Sample.ascii (mkKey [21; 1; 40; 176; 192; 15]) 1
  = match [@EInt Sample.ascii 1; EStr [97]; ENone] !! Z.to_nat 1 with
    | Some e => Ok e
    | None => Raise PyIndexError
    end.
Proof.
  assert (Hwf : Forall (@wf_element Sample.ascii) [EInt 1; EStr [97]; ENone])
    by (repeat constructor; cbn; lia).
  assert (Hnb : Forall (@no_bool Sample.ascii) [EInt 1; EStr [97]; ENone])
    by (repeat constructor).
  split; [reflexivity|]. split; [exact sample_utf8_ok|].
  split; [exact Hwf|]. split; [exact Hnb|]. split; [reflexivity|].
  split; [lia|].
  apply (@X16_key_item Sample.kinds Sample.ascii [EInt 1; EStr [97]; ENone]
           _ 1 eq_refl sample_utf8_ok Hwf Hnb eq_refl ltac:(lia)).
Defined.

(** X24. Indexing from either end. On the Key of a tuple of [n] elements
    other than timestamps, none of them a boolean, [k[i]] is the element at
    [i] for an index from [0] to [n - 1], the element at [n + i] for an
    index from [-n] to [-1], and an index out of range for every other
    index. *)
Theorem X24_index_from_either_end `{K : Kinds} `{U : PyUnicode}
    (t : list element) (k : Key) (i : Z) :
  kinds_ok = true -> utf8_ok ->
  Forall wf_element t -> Forall no_bool t -> key_new t = Ok k ->
  let n := Z.of_nat (length t) in
  (0 <= i < n -> exists e, t !! Z.to_nat i = Some e /\ PySequence_GetItem k i = Ok e) /\
  (- n <= i < 0 ->
     exists e, t !! Z.to_nat (n + i) = Some e /\ PySequence_GetItem k i = Ok e) /\
  (i < - n \/ n <= i -> PySequence_GetItem k i = Raise PyIndexError).
Proof.
  intros Hk Hu Hwf Hnb Hn n.
  rewrite (getitem_no_bool Hk Hu t k i Hwf Hnb Hn). fold n. cbv zeta.
  split; [|split].
  - intros Hi. destruct (Z.ltb_spec i 0); [lia|].
    destruct (Z.leb_spec 0 i); [|lia]. destruct (Z.ltb_spec i n); [|lia].
    cbn [andb].
    destruct (lookup_lt_is_Some_2 t (Z.to_nat i) ltac:(lia)) as [e He].
    exists e. rewrite He. split; reflexivity.
  - intros Hi. destruct (Z.ltb_spec i 0); [|lia].
    destruct (Z.leb_spec 0 (i + n)); [|lia]. destruct (Z.ltb_spec (i + n) n); [|lia].
    cbn [andb]. replace (i + n) with (n + i) by lia.
    destruct (lookup_lt_is_Some_2 t (Z.to_nat (n + i)) ltac:(lia)) as [e He].
    exists e. rewrite He. split; reflexivity.
  - intros Hi. destruct (Z.ltb_spec i 0).
    + destruct (Z.leb_spec 0 (i + n)); [lia|]. reflexivity.
    + destruct (Z.leb_spec 0 i); [|lia]. destruct (Z.ltb_spec i n); [lia|].
      reflexivity.
Qed.

Lemma X24_witness :
  @kinds_ok Sample.kinds = true /\ @utf8_ok Sample.ascii /\
  Forall (@wf_element Sample.ascii) [EInt 1; EInt 2; EInt 3] /\
  Forall (@no_bool Sample.ascii) [EInt 1; EInt 2; EInt 3] /\
  @key_new Sample.kinds Sample.ascii [EInt 1; EInt 2; EInt 3]
  = Ok (mkKey [21; 1; 21; 2; 21; 3]) /\
  (let n := Z.of_nat (length [@EInt Sample.ascii 1; EInt 2; EInt 3]) in
   (0 <= -1 < n ->
      exists e, [@EInt Sample.ascii 1; EInt 2; EInt 3] !! Z.to_nat (-1) = Some e /\
        @PySequence_GetItem Sample.kinds Sample.ascii (mkKey [21; 1; 21; 2; 21; 3]) (-1)
        = Ok e) /\
   (- n <= -1 < 0 ->
      exists e, [@EInt Sample.ascii 1; EInt 2; EInt 3] !! Z.to_nat (n + -1) = Some e /\
        @PySequence_GetItem Sample.kinds Sample.ascii (mkKey [21; 1; 21; 2; 21; 3]) (-1)
        = Ok e) /\
   (-1 < - n \/ n <= -1 ->
      @PySequence_GetItem Sample.kinds Sample.ascii (mkKey [21; 1; 21; 2; 21; 3]) (-1)
      = Raise PyIndexError)).
Proof.
  assert (Hwf : Forall (@wf_element Sample.ascii) [EInt 1; EInt 2; EInt 3])
    by (repeat constructor).
  assert (Hnb : Forall (@no_bool Sample.ascii) [EInt 1; EInt 2; EInt 3])
    by (repeat constructor).
  split; [reflexivity|]. split; [exact sample_utf8_ok|].
  split; [exact Hwf|]. split; [exact Hnb|]. split; [reflexivity|].
  apply (@X24_index_from_either_end Sample.kinds Sample.ascii
           [EInt 1; EInt 2; EInt 3] (mkKey [21; 1; 21; 2; 21; 3]) (-1)
           eq_refl sample_utf8_ok Hwf Hnb eq_refl).
Defined.

(** ** Keys sort as their tuples *)







(** ** Any bytes *)

(** X20. Skipping follows reading. On any bytes, where [read_element]
    reads an element that is neither a boolean nor a timestamp,
    [skip_element] stops at the same place, and sets [eof] when that is the
    end. *)
Theorem X20_skip_follows_read `{K : Kinds} `{U : PyUnicode}
    (rdr : reader) (e : element) (rdr' : reader) (eof : bool) :
  kinds_ok = true -> wf_bytes rdr ->
  read_element rdr = Ok (e, rdr') -> no_bool e ->
  skip_element rdr eof = Ok (rdr', eof || reader_at_end rdr').
Proof. intros Hk Hwf Hread Hnb. exact (skip_element_read Hk rdr e rdr' eof Hwf Hread Hnb). Qed.

Lemma X20_witness :
  @kinds_ok Sample.kinds = true /\ wf_bytes [20; 5; 254; 238; 143; 15] /\
  @read_element Sample.kinds Sample.ascii [20; 5; 254; 238; 143; 15]
  = Ok (EInt (-70000), [15]) /\
  @no_bool Sample.ascii (EInt (-70000)) /\
  @skip_element Sample.kinds [20; 5; 254; 238; 143; 15] false
  = Ok ([15], false || reader_at_end [15]).
Proof.
  assert (Hwf : wf_bytes [20; 5; 254; 238; 143; 15]) by (repeat constructor; lia).
  split; [reflexivity|]. split; [exact Hwf|]. split; [reflexivity|].
  split; [exact I|].
  apply (@X20_skip_follows_read Sample.kinds Sample.ascii
           [20; 5; 254; 238; 143; 15] (EInt (-70000)) [15] false
           eq_refl Hwf eq_refl I).
Defined.

(** X21. Decoding stays inside the buffer. Whatever the bytes, [py_unpack],
    [py_unpacks] and the iteration of a Key either return or fail with an
    exception of their own: no byte outside the string is read, and the
    loops end within the bound given to them. *)
Theorem X21_unpack_in_bounds `{K : Kinds} `{U : PyUnicode} (prefix s : list Z) :
  wf_bytes s ->
  in_bounds (py_unpack prefix s) /\
  in_bounds (py_unpacks prefix s) /\
  in_bounds (key_elements (mkKey s)).
Proof.
  intros Hwf.
  assert (Hdrop : wf_bytes (drop (length prefix) s)) by (apply Forall_drop; exact Hwf).
  split; [|split].
  - unfold py_unpack.
    destruct ((length s <? length prefix)%nat
              || negb (memcmp prefix s (length prefix) =? 0)); [apply in_bounds_ok|].
    apply in_bounds_bind; [apply unpack_loop_safe; [exact Hdrop|lia]|].
    intros [tup r] _. apply in_bounds_ok.
  - unfold py_unpacks.
    destruct ((length s <? length prefix)%nat
              || negb (memcmp prefix s (length prefix) =? 0)); [apply in_bounds_ok|].
    apply in_bounds_bind; [apply unpacks_loop_safe; [exact Hdrop|lia]|].
    intros tups _. apply in_bounds_ok.
  - unfold key_elements, key_iter. cbn [key_bytes].
    exact (iterate_safe (length s) [] s [] Hwf (Nat.le_refl _)).
Qed.

Lemma X21_witness :
  wf_bytes [21; 251; 1; 2] /\
  (in_bounds (@py_unpack Sample.kinds Sample.ascii [] [21; 251; 1; 2]) /\
   in_bounds (@py_unpacks Sample.kinds Sample.ascii [] [21; 251; 1; 2]) /\
   in_bounds (@key_elements Sample.kinds Sample.ascii (mkKey [21; 251; 1; 2]))).
Proof.
  assert (Hwf : wf_bytes [21; 251; 1; 2]) by (repeat constructor; lia).
  split; [exact Hwf|].
  apply (@X21_unpack_in_bounds Sample.kinds Sample.ascii [] [21; 251; 1; 2] Hwf).
Defined.

(** X22. [py_decode_offsets] stays inside its input and inside the list
    it fills, when the count it reads is below [2 ^ 31 - 1], so that
    [1 + (int) count] is the number of places needed. *)
Theorem X22_decode_offsets_in_bounds (s : list Z) (count : Z) (rdr : reader) :
  wf_bytes s -> read_plain_int s 0 = Ok (count, rdr) -> count < 2 ^ 31 - 1 ->
  in_bounds (py_decode_offsets s).
Proof.
  intros Hwf Hread Hcount.
  pose proof (read_plain_int_nonneg _ _ _ Hwf Hread) as Hc0.
  unfold py_decode_offsets. rewrite Hread. cbn [bind].
  rewrite (to_int_small count), (to_int_small (1 + count)) by lia.
  destruct (Z.ltb_spec (1 + count) 0); [lia|].
  unfold PyList_SET_ITEM at 1. rewrite length_replicate.
  destruct (Z.leb_spec 0 0); [|lia].
  destruct (Z.ltb_spec 0 (Z.of_nat (Z.to_nat (1 + count)))); [|lia].
  cbn [andb bind].
  apply in_bounds_bind.
  - apply decode_offsets_loop_safe.
    + destruct (read_plain_int_suffix _ _ _ _ Hwf (or_introl eq_refl) Hread) as [c ->].
      apply Forall_app in Hwf. apply Hwf.
    + lia.
    + rewrite length_insert, length_replicate. lia.
  - intros [out r] _. apply in_bounds_ok.
Qed.

Lemma X22_witness :
  wf_bytes [2; 5; 241] /\ read_plain_int [2; 5; 241] 0 = Ok (2, [5; 241]) /\
  2 < 2 ^ 31 - 1 /\ in_bounds (py_decode_offsets [2; 5; 241]).
Proof.
  assert (Hwf : wf_bytes [2; 5; 241]) by (repeat constructor; lia).
  split; [exact Hwf|]. split; [reflexivity|]. split; [lia|].
  apply (X22_decode_offsets_in_bounds [2; 5; 241] 2 [5; 241] Hwf eq_refl); lia.
Defined.

(** ** A Key against a tuple *)



